(** * Lute2Anki: the term extractor of [database.py]

    A shallow embedding of [LuteDatabase.build_sql_query] and
    [LuteDatabase.connect], together with a model of the part of Python and of
    SQLite that the two methods rely on:

    - [Py]: dates and [isoformat], [str.endswith], [str.join], exceptions,
      and a state-and-exception monad for the side channel (log, user
      notices, connection events);
    - [Sqlite]: storage classes, a lexer and a parser for the fragment of
      SQL the program emits, name resolution, LEFT JOIN and three-valued
      WHERE evaluation;
    - [Database]: the two methods of [LuteDatabase], transcribed from the
      source. *)

From Stdlib Require Import Bool Arith ZArith List Ascii String Lia.
From Stdlib Require Import DecimalString.
Import ListNotations.

Open Scope string_scope.

(* ===================================================================== *)
(** * Python side *)
(* ===================================================================== *)

Module Py.

(** The double quote and the line feed, as one-character strings. *)
Definition dquote_char : ascii := ascii_of_nat 34.
Definition dquote : string := String dquote_char EmptyString.
Definition nl : string := String (ascii_of_nat 10) EmptyString.

(** [datetime.date]: Python keeps 1 <= year <= 9999, so four digits are
    enough for the year and two for month and day. *)
Record date := mkdate { year : nat; month : nat; day : nat }.

Definition digit (n : nat) : ascii := ascii_of_nat (48 + n mod 10).
Definition pad2 (n : nat) : string :=
  String (digit (n / 10)) (String (digit n) EmptyString).
Definition pad4 (n : nat) : string :=
  String (digit (n / 1000)) (String (digit (n / 100)) (pad2 n)).

(** [date.isoformat()], i.e. YYYY-MM-DD. *)
Definition isoformat (d : date) : string :=
  pad4 (year d) ++ "-" ++ pad2 (month d) ++ "-" ++ pad2 (day d).

(** [s.endswith(suffix)] *)
Definition endswith (s suffix : string) : bool :=
  (String.length suffix <=? String.length s)%nat
  && String.eqb
       (substring (String.length s - String.length suffix)
                  (String.length suffix) s)
       suffix.

(** [sep.join(parts)] *)
Definition join (sep : string) (parts : list string) : string :=
  String.concat sep parts.

(** [str(n)] for a non-negative integer such as [len(xs)]. *)
Definition str_of_nat (n : nat) : string :=
  NilEmpty.string_of_uint (Nat.to_uint n).

(** Exceptions deriving from [Exception]; [str(e)] is the message. *)
Inductive exn :=
| OperationalError (msg : string)
| DatabaseError (msg : string)
| IndexError (msg : string).

Definition str_of_exn (e : exn) : string :=
  match e with
  | OperationalError m | DatabaseError m | IndexError m => m
  end.

Inductive result (A : Type) :=
| Ok (a : A)
| Raise (e : exn).
Arguments Ok {A} a.
Arguments Raise {A} e.

Definition rbind {A B} (r : result A) (k : A -> result B) : result B :=
  match r with
  | Ok a => k a
  | Raise e => Raise e
  end.

(** What the program does to the outside world, in order. *)
Inductive event :=
| ShowInfo (msg : string)          (* aqt.utils.showInfo *)
| LogInfo (msg : string)           (* logger.log_info *)
| LogError (msg : string)          (* logger.log_error *)
| ConnOpened (path : string)       (* sqlite3.connect succeeded *)
| ConnClosed (path : string).      (* conn.close() *)

Definition trace := list event.

(** Computations that may raise and that extend the trace. *)
Definition M (A : Type) : Type := trace -> result A * trace.

Definition ret {A} (a : A) : M A := fun t => (Ok a, t).
Definition raise {A} (e : exn) : M A := fun t => (Raise e, t).
Definition bind {A B} (m : M A) (k : A -> M B) : M B :=
  fun t =>
    match m t with
    | (Ok a, t') => k a t'
    | (Raise e, t') => (Raise e, t')
    end.
Definition emit (e : event) : M unit := fun t => (Ok tt, (t ++ [e])%list).
Definition lift {A} (r : result A) : M A := fun t => (r, t).

(** [try: body except Exception as e: handler(e)] *)
Definition try_except {A} (body : M A) (handler : exn -> M A) : M A :=
  fun t =>
    match body t with
    | (Ok a, t') => (Ok a, t')
    | (Raise e, t') => handler e t'
    end.

End Py.

Notation "x <- m ;; k" := (Py.bind m (fun x => k))
  (at level 61, m at next level, right associativity).
Notation "m ;;; k" := (Py.bind m (fun _ => k))
  (at level 61, right associativity).

(* ===================================================================== *)
(** * SQLite side *)
(* ===================================================================== *)

(** The model covers what the program's three statements use: SELECT of a
    column list or of [*], FROM one table with a chain of LEFT JOINs, and a
    WHERE built from IS [NOT] NULL, comparisons, AND, OR and parentheses.
    Values are NULL, INTEGER and TEXT, compared as SQLite compares storage
    classes when no affinity conversion applies. *)

Module Sqlite.

Import Py.

(** ** Values and tables *)

Inductive value :=
| VNull
| VInt (z : Z)
| VText (s : string).

(** Python's [==] on what the driver hands back ([None], [int], [str]). *)
Definition value_eqb (a b : value) : bool :=
  match a, b with
  | VNull, VNull => true
  | VInt x, VInt y => Z.eqb x y
  | VText x, VText y => String.eqb x y
  | _, _ => false
  end.

Definition row := list value.

Record table := mktable { t_cols : list string; t_rows : list row }.

(** A database file: its tables by name. *)
Definition database := list (string * table).

(** ** Lexer *)

Inductive cmpop := OpEq | OpNe | OpLt | OpLe | OpGt | OpGe.

Inductive token :=
| TWord (s : string)
| TNum (z : Z)
| TSq (s : string)        (* 'text' *)
| TDq (s : string)        (* double-quoted text *)
| TCmp (op : cmpop)
| TLParen | TRParen | TComma | TDot | TStar | TSemi
| TBad (c : ascii).

Definition is_space (c : ascii) : bool :=
  let n := nat_of_ascii c in
  ((n =? 32) || (n =? 9) || (n =? 10) || (n =? 13) || (n =? 12))%nat.

Definition is_digit (c : ascii) : bool :=
  let n := nat_of_ascii c in ((48 <=? n) && (n <=? 57))%nat.

Definition is_alpha (c : ascii) : bool :=
  let n := nat_of_ascii c in
  (((65 <=? n) && (n <=? 90)) || ((97 <=? n) && (n <=? 122)) || (n =? 95))%nat.

Definition is_ident_char (c : ascii) : bool := is_alpha c || is_digit c.

Definition digit_value (c : ascii) : Z := Z.of_nat (nat_of_ascii c - 48).

Definition snoc (s : string) (c : ascii) : string :=
  s ++ String c EmptyString.

(** What the lexer is in the middle of. *)
Inductive lmode :=
| MIdle
| MWord (acc : string)
| MNum (acc : Z)
| MSq (acc : string)
| MDq (acc : string)
| MLt
| MGt.

(** A character met outside any token. *)
Definition lex_start (c : ascii) : list token * lmode :=
  if is_space c then ([], MIdle)
  else if is_alpha c then ([], MWord (String c EmptyString))
  else if is_digit c then ([], MNum (digit_value c))
  else if Ascii.eqb c "'" then ([], MSq EmptyString)
  else if Ascii.eqb c dquote_char then ([], MDq EmptyString)
  else if Ascii.eqb c "<" then ([], MLt)
  else if Ascii.eqb c ">" then ([], MGt)
  else if Ascii.eqb c "=" then ([TCmp OpEq], MIdle)
  else if Ascii.eqb c "(" then ([TLParen], MIdle)
  else if Ascii.eqb c ")" then ([TRParen], MIdle)
  else if Ascii.eqb c "," then ([TComma], MIdle)
  else if Ascii.eqb c "." then ([TDot], MIdle)
  else if Ascii.eqb c "*" then ([TStar], MIdle)
  else if Ascii.eqb c ";" then ([TSemi], MIdle)
  else ([TBad c], MIdle).

Definition emit_then (t : token) (c : ascii) : list token * lmode :=
  let (ts, m) := lex_start c in (t :: ts, m).

Definition lex_step (m : lmode) (c : ascii) : list token * lmode :=
  match m with
  | MIdle => lex_start c
  | MWord acc =>
      if is_ident_char c then ([], MWord (snoc acc c))
      else emit_then (TWord acc) c
  | MNum acc =>
      if is_digit c then ([], MNum (acc * 10 + digit_value c)%Z)
      else emit_then (TNum acc) c
  | MSq acc =>
      if Ascii.eqb c "'" then ([TSq acc], MIdle) else ([], MSq (snoc acc c))
  | MDq acc =>
      if Ascii.eqb c dquote_char then ([TDq acc], MIdle)
      else ([], MDq (snoc acc c))
  | MLt =>
      if Ascii.eqb c "=" then ([TCmp OpLe], MIdle)
      else if Ascii.eqb c ">" then ([TCmp OpNe], MIdle)
      else emit_then (TCmp OpLt) c
  | MGt =>
      if Ascii.eqb c "=" then ([TCmp OpGe], MIdle)
      else emit_then (TCmp OpGt) c
  end.

Fixpoint lex_run (m : lmode) (s : string) : list token * lmode :=
  match s with
  | EmptyString => ([], m)
  | String c s' =>
      let (ts, m') := lex_step m c in
      let (ts', m'') := lex_run m' s' in
      ((ts ++ ts')%list, m'')
  end.

(** End of input: an open quote is an error. *)
Definition lex_finish (m : lmode) : option (list token) :=
  match m with
  | MIdle => Some []
  | MWord acc => Some [TWord acc]
  | MNum acc => Some [TNum acc]
  | MSq _ | MDq _ => None
  | MLt => Some [TCmp OpLt]
  | MGt => Some [TCmp OpGt]
  end.

Definition tokenize (s : string) : option (list token) :=
  let (ts, m) := lex_run MIdle s in
  match lex_finish m with
  | Some last => Some (ts ++ last)%list
  | None => None
  end.

(** ** Syntax *)

Inductive colref :=
| Col (c : string)             (* WoStatus *)
| QCol (a c : string).         (* w.WoStatus *)

Inductive operand :=
| OCol (r : colref)
| OInt (z : Z)
| OStr (s : string)            (* 'text' *)
| ODq (s : string).            (* double-quoted: a column if one has that
                                  name, a text literal otherwise *)

Inductive cond :=
| CIsNull (o : operand)
| CIsNotNull (o : operand)
| CCmp (op : cmpop) (a b : operand)
| CAnd (c1 c2 : cond)
| COr (c1 c2 : cond).

Record join := mkjoin { j_table : string; j_alias : string; j_on : cond }.

Inductive select_list :=
| SelStar
| SelCols (cs : list colref).

Record query := mkquery {
  q_select : select_list;
  q_table : string;
  q_alias : string;
  q_joins : list join;
  q_where : option cond
}.

(** ** Parser *)

Definition upper_char (c : ascii) : ascii :=
  let n := nat_of_ascii c in
  if ((97 <=? n) && (n <=? 122))%nat then ascii_of_nat (n - 32) else c.

Fixpoint upper (s : string) : string :=
  match s with
  | EmptyString => EmptyString
  | String c s' => String (upper_char c) (upper s')
  end.

(** Names and keywords are compared without regard to ASCII case. *)
Definition ident_eqb (a b : string) : bool := String.eqb (upper a) (upper b).

Definition is_kw (k : string) (t : token) : bool :=
  match t with
  | TWord s => String.eqb (upper s) k
  | _ => false
  end.

Definition keywords : list string :=
  ["SELECT"; "FROM"; "LEFT"; "JOIN"; "ON"; "AS"; "WHERE";
   "AND"; "OR"; "IS"; "NOT"; "NULL"].

Definition reserved (s : string) : bool :=
  existsb (String.eqb (upper s)) keywords.

Definition parser (A : Type) : Type := list token -> option (A * list token).

Definition parse_colref : parser colref := fun ts =>
  match ts with
  | TWord a :: TDot :: TWord c :: rest =>
      if reserved a || reserved c then None else Some (QCol a c, rest)
  | TWord c :: rest => if reserved c then None else Some (Col c, rest)
  | _ => None
  end.

Definition parse_operand : parser operand := fun ts =>
  match ts with
  | TNum z :: rest => Some (OInt z, rest)
  | TSq s :: rest => Some (OStr s, rest)
  | TDq s :: rest => Some (ODq s, rest)
  | _ =>
      match parse_colref ts with
      | Some (r, rest) => Some (OCol r, rest)
      | None => None
      end
  end.

(** What may follow an operand: IS NULL, IS NOT NULL, or a comparison. *)
Definition parse_pred (o : operand) : parser cond := fun ts =>
  match ts with
  | TCmp op :: rest =>
      match parse_operand rest with
      | Some (o2, rest') => Some (CCmp op o o2, rest')
      | None => None
      end
  | t1 :: t2 :: rest =>
      if is_kw "IS" t1 then
        if is_kw "NULL" t2 then Some (CIsNull o, rest)
        else if is_kw "NOT" t2 then
          match rest with
          | t3 :: rest' =>
              if is_kw "NULL" t3 then Some (CIsNotNull o, rest') else None
          | [] => None
          end
        else None
      else None
  | _ => None
  end.

Inductive level := LOr | LAnd | LAtom.

(** OR binds weaker than AND; both chains are built to the right, which
    three-valued AND and OR allow since they are associative. *)
Fixpoint parse_cond (fuel : nat) (lv : level) : parser cond := fun ts =>
  match fuel with
  | O => None
  | S f =>
      match lv with
      | LOr =>
          match parse_cond f LAnd ts with
          | Some (c1, t :: rest) =>
              if is_kw "OR" t then
                match parse_cond f LOr rest with
                | Some (c2, rest') => Some (COr c1 c2, rest')
                | None => None
                end
              else Some (c1, t :: rest)
          | other => other
          end
      | LAnd =>
          match parse_cond f LAtom ts with
          | Some (c1, t :: rest) =>
              if is_kw "AND" t then
                match parse_cond f LAnd rest with
                | Some (c2, rest') => Some (CAnd c1 c2, rest')
                | None => None
                end
              else Some (c1, t :: rest)
          | other => other
          end
      | LAtom =>
          match ts with
          | TLParen :: rest =>
              match parse_cond f LOr rest with
              | Some (c, TRParen :: rest') => Some (c, rest')
              | _ => None
              end
          | _ =>
              match parse_operand ts with
              | Some (o, rest) => parse_pred o rest
              | None => None
              end
          end
      end
  end.

Fixpoint parse_cols (fuel : nat) : parser (list colref) := fun ts =>
  match fuel with
  | O => None
  | S f =>
      match parse_colref ts with
      | Some (c, TComma :: rest) =>
          match parse_cols f rest with
          | Some (cs, rest') => Some (c :: cs, rest')
          | None => None
          end
      | Some (c, rest) => Some ([c], rest)
      | None => None
      end
  end.

Definition parse_select (fuel : nat) : parser select_list := fun ts =>
  match ts with
  | TStar :: rest => Some (SelStar, rest)
  | _ =>
      match parse_cols fuel ts with
      | Some (cs, rest) => Some (SelCols cs, rest)
      | None => None
      end
  end.

(** [name] or [name AS alias]; a table without alias is known by its name. *)
Definition parse_tref : parser (string * string) := fun ts =>
  match ts with
  | TWord t :: rest =>
      if reserved t then None
      else
        match rest with
        | kw :: TWord a :: rest' =>
            if is_kw "AS" kw then
              if reserved a then None else Some ((t, a), rest')
            else Some ((t, t), rest)
        | _ => Some ((t, t), rest)
        end
  | _ => None
  end.

Fixpoint parse_joins (fuel : nat) : parser (list join) := fun ts =>
  match fuel with
  | O => None
  | S f =>
      match ts with
      | t1 :: t2 :: rest =>
          if is_kw "LEFT" t1 && is_kw "JOIN" t2 then
            match parse_tref rest with
            | Some ((t, a), kw :: rest1) =>
                if is_kw "ON" kw then
                  match parse_cond fuel LOr rest1 with
                  | Some (c, rest2) =>
                      match parse_joins f rest2 with
                      | Some (js, rest3) => Some (mkjoin t a c :: js, rest3)
                      | None => None
                      end
                  | None => None
                  end
                else None
            | _ => None
            end
          else Some ([], ts)
      | _ => Some ([], ts)
      end
  end.

Definition parse_where (fuel : nat) : parser (option cond) := fun ts =>
  match ts with
  | t :: rest =>
      if is_kw "WHERE" t then
        match parse_cond fuel LOr rest with
        | Some (c, rest') => Some (Some c, rest')
        | None => None
        end
      else Some (None, ts)
  | [] => Some (None, [])
  end.

Definition parse_query (ts : list token) : option query :=
  let fuel := 3 * S (List.length ts) in
  match ts with
  | t :: rest =>
      if is_kw "SELECT" t then
        match parse_select fuel rest with
        | Some (sel, kw :: rest1) =>
            if is_kw "FROM" kw then
              match parse_tref rest1 with
              | Some ((tbl, al), rest2) =>
                  match parse_joins fuel rest2 with
                  | Some (js, rest3) =>
                      match parse_where fuel rest3 with
                      | Some (w, []) | Some (w, [TSemi]) =>
                          Some (mkquery sel tbl al js w)
                      | _ => None
                      end
                  | None => None
                  end
              | None => None
              end
            else None
        | _ => None
        end
      else None
  | [] => None
  end.

(** From statement text to syntax tree. *)
Definition prepare (sql : string) : result query :=
  match tokenize sql with
  | None => Raise (OperationalError "unrecognized token")
  | Some ts =>
      match parse_query ts with
      | Some q => Ok q
      | None => Raise (OperationalError "syntax error")
      end
  end.

(** ** Name resolution *)

(** The tables of a FROM clause, in order, each under its alias. *)
Definition scope := list (string * table).

Fixpoint lookup_table (db : database) (name : string) : option table :=
  match db with
  | [] => None
  | (n, t) :: rest => if ident_eqb n name then Some t else lookup_table rest name
  end.

Definition bind_table (db : database) (name alias : string)
  : result (string * table) :=
  match lookup_table db name with
  | Some t => Ok (alias, t)
  | None => Raise (OperationalError ("no such table: " ++ name))
  end.

Fixpoint bind_joins (db : database) (js : list join) : result scope :=
  match js with
  | [] => Ok []
  | j :: rest =>
      rbind (bind_table db (j_table j) (j_alias j)) (fun b =>
      rbind (bind_joins db rest) (fun bs => Ok (b :: bs)))
  end.

Definition bind_from (db : database) (q : query) : result scope :=
  rbind (bind_table db (q_table q) (q_alias q)) (fun b =>
  rbind (bind_joins db (q_joins q)) (fun bs => Ok (b :: bs))).

(** A resolved column: which table of the scope, which column of it. *)
Record ref := mkref { r_alias : nat; r_col : nat }.

Fixpoint find_col (cols : list string) (c : string) : option nat :=
  match cols with
  | [] => None
  | x :: rest =>
      if ident_eqb x c then Some 0 else option_map S (find_col rest c)
  end.

Fixpoint find_alias (k : nat) (sc : scope) (a : string)
  : option (nat * table) :=
  match sc with
  | [] => None
  | (x, t) :: rest =>
      if ident_eqb x a then Some (k, t) else find_alias (S k) rest a
  end.

(** Every table of the scope that has a column called [c]. *)
Fixpoint candidates (k : nat) (sc : scope) (c : string) : list ref :=
  match sc with
  | [] => []
  | (_, t) :: rest =>
      match find_col (t_cols t) c with
      | Some j => mkref k j :: candidates (S k) rest c
      | None => candidates (S k) rest c
      end
  end.

Definition no_such_column (name : string) : exn :=
  OperationalError ("no such column: " ++ name).

Definition ambiguous_column (name : string) : exn :=
  OperationalError ("ambiguous column name: " ++ name).

Definition resolve_colref (sc : scope) (cr : colref) : result ref :=
  match cr with
  | Col c =>
      match candidates 0 sc c with
      | [r] => Ok r
      | [] => Raise (no_such_column c)
      | _ => Raise (ambiguous_column c)
      end
  | QCol a c =>
      match find_alias 0 sc a with
      | Some (i, t) =>
          match find_col (t_cols t) c with
          | Some j => Ok (mkref i j)
          | None => Raise (no_such_column (a ++ "." ++ c))
          end
      | None => Raise (no_such_column (a ++ "." ++ c))
      end
  end.

Inductive roperand :=
| RCol (r : ref)
| RLit (v : value).

Inductive rcond :=
| RIsNull (o : roperand)
| RIsNotNull (o : roperand)
| RCmp (op : cmpop) (a b : roperand)
| RAnd (c1 c2 : rcond)
| ROr (c1 c2 : rcond).

Definition resolve_operand (sc : scope) (o : operand) : result roperand :=
  match o with
  | OCol cr => rbind (resolve_colref sc cr) (fun r => Ok (RCol r))
  | OInt z => Ok (RLit (VInt z))
  | OStr s => Ok (RLit (VText s))
  | ODq s =>
      match candidates 0 sc s with
      | [r] => Ok (RCol r)
      | [] => Ok (RLit (VText s))
      | _ => Raise (ambiguous_column s)
      end
  end.

Fixpoint resolve_cond (sc : scope) (c : cond) : result rcond :=
  match c with
  | CIsNull o => rbind (resolve_operand sc o) (fun r => Ok (RIsNull r))
  | CIsNotNull o => rbind (resolve_operand sc o) (fun r => Ok (RIsNotNull r))
  | CCmp op a b =>
      rbind (resolve_operand sc a) (fun ra =>
      rbind (resolve_operand sc b) (fun rb => Ok (RCmp op ra rb)))
  | CAnd c1 c2 =>
      rbind (resolve_cond sc c1) (fun r1 =>
      rbind (resolve_cond sc c2) (fun r2 => Ok (RAnd r1 r2)))
  | COr c1 c2 =>
      rbind (resolve_cond sc c1) (fun r1 =>
      rbind (resolve_cond sc c2) (fun r2 => Ok (ROr r1 r2)))
  end.

Fixpoint resolve_cols (sc : scope) (cs : list colref) : result (list ref) :=
  match cs with
  | [] => Ok []
  | c :: rest =>
      rbind (resolve_colref sc c) (fun r =>
      rbind (resolve_cols sc rest) (fun rs => Ok (r :: rs)))
  end.

(** [*]: every column of every table, in FROM order. *)
Fixpoint all_columns (k : nat) (sc : scope) : list ref :=
  match sc with
  | [] => []
  | (_, t) :: rest =>
      (map (mkref k) (seq 0 (List.length (t_cols t)))
         ++ all_columns (S k) rest)%list
  end.

Definition resolve_select (sc : scope) (sel : select_list)
  : result (list ref) :=
  match sel with
  | SelStar => Ok (all_columns 0 sc)
  | SelCols cs => resolve_cols sc cs
  end.

Definition resolve_where (sc : scope) (w : option cond)
  : result (option rcond) :=
  match w with
  | None => Ok None
  | Some c => rbind (resolve_cond sc c) (fun r => Ok (Some r))
  end.

Fixpoint resolve_ons (sc : scope) (js : list join) : result (list rcond) :=
  match js with
  | [] => Ok []
  | j :: rest =>
      rbind (resolve_cond sc (j_on j)) (fun r =>
      rbind (resolve_ons sc rest) (fun rs => Ok (r :: rs)))
  end.

(** A statement ready to run: names are resolved when the statement is
    prepared, before any row is read. *)
Record plan := mkplan {
  p_scope : scope;
  p_select : list ref;
  p_where : option rcond;
  p_ons : list rcond
}.

Definition resolve (sc : scope) (q : query) : result plan :=
  rbind (resolve_select sc (q_select q)) (fun sel =>
  rbind (resolve_where sc (q_where q)) (fun w =>
  rbind (resolve_ons sc (q_joins q)) (fun ons =>
  Ok (mkplan sc sel w ons)))).

(** ** Evaluation *)

(** One row of the join: for each table of the scope its row, or nothing
    where a LEFT JOIN found no partner. *)
Definition env := list (option row).

Definition eval_ref (e : env) (r : ref) : value :=
  match nth_error e (r_alias r) with
  | Some (Some rw) => nth (r_col r) rw VNull
  | _ => VNull
  end.

Definition eval_operand (e : env) (o : roperand) : value :=
  match o with
  | RCol r => eval_ref e r
  | RLit v => v
  end.

(** NULL compares with nothing; an INTEGER is below any TEXT; TEXT is
    compared byte by byte. *)
Definition value_compare (a b : value) : option comparison :=
  match a, b with
  | VNull, _ | _, VNull => None
  | VInt x, VInt y => Some (Z.compare x y)
  | VInt _, VText _ => Some Lt
  | VText _, VInt _ => Some Gt
  | VText x, VText y => Some (String.compare x y)
  end.

Definition cmp_holds (op : cmpop) (c : comparison) : bool :=
  match op, c with
  | OpEq, Eq => true
  | OpNe, Lt | OpNe, Gt => true
  | OpLt, Lt => true
  | OpLe, Lt | OpLe, Eq => true
  | OpGt, Gt => true
  | OpGe, Gt | OpGe, Eq => true
  | _, _ => false
  end.

(** Three-valued logic: [None] is SQL's unknown. *)
Definition and3 (a b : option bool) : option bool :=
  match a, b with
  | Some false, _ | _, Some false => Some false
  | Some true, Some true => Some true
  | _, _ => None
  end.

Definition or3 (a b : option bool) : option bool :=
  match a, b with
  | Some true, _ | _, Some true => Some true
  | Some false, Some false => Some false
  | _, _ => None
  end.

Definition is_null (v : value) : bool :=
  match v with VNull => true | _ => false end.

Fixpoint eval_cond (e : env) (c : rcond) : option bool :=
  match c with
  | RIsNull o => Some (is_null (eval_operand e o))
  | RIsNotNull o => Some (negb (is_null (eval_operand e o)))
  | RCmp op a b =>
      option_map (cmp_holds op)
                 (value_compare (eval_operand e a) (eval_operand e b))
  | RAnd c1 c2 => and3 (eval_cond e c1) (eval_cond e c2)
  | ROr c1 c2 => or3 (eval_cond e c1) (eval_cond e c2)
  end.

(** A row is kept only where the condition is true, not where it is
    unknown. *)
Definition holds (e : env) (c : rcond) : bool :=
  match eval_cond e c with
  | Some true => true
  | _ => false
  end.

(** LEFT JOIN of the rows so far with table [t]. *)
Definition join_step (t : table) (on : rcond) (es : list env) : list env :=
  flat_map
    (fun e =>
       match filter (fun rw => holds (e ++ [Some rw])%list on) (t_rows t) with
       | [] => [(e ++ [None])%list]
       | partners => map (fun rw => (e ++ [Some rw])%list) partners
       end)
    es.

Fixpoint join_all (ts : list table) (ons : list rcond) (es : list env)
  : list env :=
  match ts, ons with
  | t :: ts', on :: ons' => join_all ts' ons' (join_step t on es)
  | _, _ => es
  end.

Definition from_rows (p : plan) : list env :=
  match p_scope p with
  | [] => []
  | (_, t) :: joined =>
      join_all (map snd joined) (p_ons p)
               (map (fun rw => [Some rw]) (t_rows t))
  end.

Definition keeps (p : plan) (e : env) : bool :=
  match p_where p with
  | None => true
  | Some w => holds e w
  end.

Definition project (p : plan) (e : env) : row :=
  map (eval_ref e) (p_select p).

Definition run (p : plan) : list row :=
  map (project p) (filter (keeps p) (from_rows p)).

(** [prepare] then run, as one [cursor.execute(sql)] followed by
    [cursor.fetchall()] does. *)
Definition execute (db : database) (sql : string) : result (list row) :=
  rbind (prepare sql) (fun q =>
  rbind (bind_from db q) (fun sc =>
  rbind (resolve sc q) (fun p => Ok (run p)))).

(** ** The [sqlite3] driver *)

(** What a path leads to. *)
Inductive file_state :=
| Unopenable                    (* connect itself fails *)
| NotADatabase                  (* connect succeeds, every statement fails *)
| Db (db : database).

Definition filesystem := string -> file_state.

Record connection := mkconn { c_path : string; c_file : file_state }.

(** [sqlite3.connect(path)] *)
Definition connect (fs : filesystem) (path : string) : M connection :=
  match fs path with
  | Unopenable => raise (OperationalError "unable to open database file")
  | st => emit (ConnOpened path) ;;; ret (mkconn path st)
  end.

(** [cursor.execute(sql)] followed by [cursor.fetchall()] *)
Definition execute_fetchall (conn : connection) (sql : string)
  : M (list row) :=
  match c_file conn with
  | Db db => lift (execute db sql)
  | _ => raise (DatabaseError "file is not a database")
  end.

(** [conn.close()] *)
Definition close (conn : connection) : M unit :=
  emit (ConnClosed (c_path conn)).

End Sqlite.

(* ===================================================================== *)
(** * [database.py] *)
(* ===================================================================== *)

Module Database.

Import Py.

(** Modelled from the spec: [showInfo] of [aqt.utils] and [log_info],
    [log_error] of the repository's [logger] module are the external
    notification and logging collaborator; each call hands one message to
    it, recorded here in the trace. *)
Definition showInfo (msg : string) : M unit := emit (ShowInfo msg).
Definition log_info (msg : string) : M unit := emit (LogInfo msg).
Definition log_error (msg : string) : M unit := emit (LogError msg).

Record LuteDatabase := mkLuteDatabase { db_path : string }.

(** The two SELECT ... FROM ... texts of [build_sql_query]. *)
Definition base_query (parents_only : bool) : string :=
  if parents_only then
    "
                SELECT
                    w.WoText,
                    w.WoTranslation,
                    w.WoLgID,
                    w.WoCreated,
                    t.TgText,
                    w.WoStatusChanged,
                    w.WoTextLC,
                    w.WoID,
                    w.WoStatus,
                    w.WoRomanization,
                    w.WoTokenCount,
                    wi.WiSource,
                    t.TgComment
                FROM
                    words AS w
                LEFT JOIN
                    wordimages AS wi ON w.WoID = wi.WiWoID
                LEFT JOIN
                    wordtags AS wt ON wi.WiWoID = wt.WtWoID
                LEFT JOIN
                    tags AS t ON wt.WtTgID = t.TgID
                LEFT JOIN
                    wordparents AS wp_child ON w.WoID = wp_child.WpWoID
                LEFT JOIN
                    wordparents AS wp_parent ON w.WoID = wp_parent.WpParentWoID
            "
  else
    "
                SELECT WoText, WoTranslation, WoLgID, WoCreated, TgText,
                    WoStatusChanged, WoTextLC, WoID, WoStatus, WoRomanization,
                    WiSource, TgComment
                FROM words AS w
                LEFT JOIN wordimages AS wi ON w.WoID = wi.WiWoID
                LEFT JOIN wordtags AS wt ON wi.WiWoID = wt.WtWoID
                LEFT JOIN tags AS t ON wt.WtTgID = t.TgID
            ".

(** The list of conditions to use as filter. *)
Definition where_conditions
  (empty_translation include_WKI : bool) (cutoff_date : date) : list string :=
  let where_conditions :=
    [ "WoTranslation IS NOT NULL";
      "(wp_child.WpParentWoID IS NULL OR wp_parent.WpParentWoID IS NOT NULL)";
      "WoCreated >= " ++ dquote ++ isoformat cutoff_date ++ dquote ] in
  let where_conditions :=
    if negb empty_translation
    then (where_conditions ++ ["WoTranslation <> ''"])%list
    else where_conditions in
  let where_conditions :=
    if negb include_WKI
    then (where_conditions ++ ["WoStatus <= 5"])%list
    else where_conditions in
  let include_unknown := false in
  let where_conditions :=
    if negb include_unknown
    then (where_conditions ++ ["1 <= WoStatus"])%list
    else where_conditions in
  where_conditions.

(** Join all conditions with AND. *)
Definition where_clause
  (empty_translation include_WKI : bool) (cutoff_date : date) : string :=
  "WHERE " ++ join " AND " (where_conditions empty_translation include_WKI cutoff_date).

(** The text [build_sql_query] returns. *)
Definition query_text
  (parents_only empty_translation include_WKI : bool) (cutoff_date : date)
  : string :=
  base_query parents_only ++ nl
    ++ where_clause empty_translation include_WKI cutoff_date ++ ";".

Definition build_sql_query (self : LuteDatabase)
  (parents_only empty_translation include_WKI : bool) (cutoff_date : date)
  : M string :=
  log_info "[database] Executing SQL query to fetch terms." ;;;
  ret (query_text parents_only empty_translation include_WKI cutoff_date).

(** The defaults of [build_sql_query]. Python evaluates a default
    expression once, when the [def] statement is executed, so
    [cutoff_date=date.today()] is the day on which the class body ran. *)
Record defaults := mkdefaults {
  default_parents_only : bool;
  default_empty_translation : bool;
  default_include_WKI : bool;
  default_cutoff_date : date
}.

Definition def_build_sql_query (today_at_def : date) : defaults :=
  mkdefaults false false false today_at_def.

Definition or_default {A} (arg : option A) (dflt : A) : A :=
  match arg with
  | Some a => a
  | None => dflt
  end.

(** A call of [build_sql_query] in which any of the four arguments may be
    left out. *)
Definition call_build_sql_query (d : defaults) (self : LuteDatabase)
  (parents_only empty_translation include_WKI : option bool)
  (cutoff_date : option date) : M string :=
  build_sql_query self
    (or_default parents_only (default_parents_only d))
    (or_default empty_translation (default_empty_translation d))
    (or_default include_WKI (default_include_WKI d))
    (or_default cutoff_date (default_cutoff_date d)).

(** [t[i]] on a tuple *)
Definition index (t : Sqlite.row) (i : nat) : result Sqlite.value :=
  match nth_error t i with
  | Some v => Ok v
  | None => Raise (IndexError "tuple index out of range")
  end.

(** [term[2] for term in terms] *)
Fixpoint lg_ids (terms : list Sqlite.row) : result (list Sqlite.value) :=
  match terms with
  | [] => Ok []
  | term :: rest =>
      rbind (index term 2) (fun v =>
      rbind (lg_ids rest) (fun vs => Ok (v :: vs)))
  end.

(** [list(set(xs))]: each value once. Only membership is used below. *)
Fixpoint list_set (xs : list Sqlite.value) : list Sqlite.value :=
  match xs with
  | [] => []
  | x :: rest =>
      if existsb (Sqlite.value_eqb x) rest then list_set rest
      else x :: list_set rest
  end.

(** [x in xs] *)
Definition py_in (x : Sqlite.value) (xs : list Sqlite.value) : bool :=
  existsb (Sqlite.value_eqb x) xs.

(** [[lang[0], lang[1]] for lang in all_languages
     if lang[0] in used_lg_ids] *)
Fixpoint pair_languages (used_lg_ids : list Sqlite.value)
  (all_languages : list Sqlite.row) : result (list (list Sqlite.value)) :=
  match all_languages with
  | [] => Ok []
  | lang :: rest =>
      rbind (index lang 0) (fun id =>
      if py_in id used_lg_ids then
        rbind (index lang 0) (fun lg_id =>
        rbind (index lang 1) (fun lg_name =>
        rbind (pair_languages used_lg_ids rest) (fun ls =>
        Ok ([lg_id; lg_name] :: ls))))
      else pair_languages used_lg_ids rest)
  end.

Definition terms_and_languages : Type :=
  (list Sqlite.row * list (list Sqlite.value))%type.

(** The body of the [try] block of [connect]. *)
Definition connect_try (fs : Sqlite.filesystem) (self : LuteDatabase)
  (parents_only empty_translation include_WKI : bool) (cutoff_date : date)
  : M terms_and_languages :=
  conn <- Sqlite.connect fs (db_path self) ;;
  log_info ("[database] Successfully connected to database: " ++ db_path self) ;;;
  sql <- build_sql_query self parents_only empty_translation include_WKI
                         cutoff_date ;;
  terms <- Sqlite.execute_fetchall conn sql ;;
  ids <- lift (lg_ids terms) ;;
  let used_lg_ids := list_set ids in
  all_languages <- Sqlite.execute_fetchall conn "SELECT * FROM languages" ;;
  languages <- lift (pair_languages used_lg_ids all_languages) ;;
  Sqlite.close conn ;;;
  log_info ("[database] Retrieved " ++ str_of_nat (List.length terms)
            ++ " terms and " ++ str_of_nat (List.length languages)
            ++ " languages.") ;;;
  ret (terms, languages).

(** The [except Exception as e] clause of [connect]. *)
Definition connect_except (e : exn) : M terms_and_languages :=
  log_error ("[database] Database connection error: " ++ str_of_exn e) ;;;
  showInfo ("Database connection error: " ++ str_of_exn e) ;;;
  ret ([], []).

Definition connect (fs : Sqlite.filesystem) (self : LuteDatabase)
  (parents_only empty_translation include_WKI : bool) (cutoff_date : date)
  : M terms_and_languages :=
  if negb (endswith (db_path self) "lute.db") then
    showInfo "Please select a lute.db file" ;;;
    log_error ("[database] Invalid database file selected: " ++ db_path self) ;;;
    ret ([], [])
  else
    try_except
      (connect_try fs self parents_only empty_translation include_WKI
                   cutoff_date)
      connect_except.

End Database.

(* ===================================================================== *)
(** * A concrete store *)
(* ===================================================================== *)

Module Scenario.

Import Py Sqlite.

Definition today : date := mkdate 2024 5 17.

Definition words_cols : list string :=
  ["WoID"; "WoLgID"; "WoText"; "WoTextLC"; "WoStatus"; "WoTranslation";
   "WoRomanization"; "WoTokenCount"; "WoCreated"; "WoStatusChanged"].

Definition word (id lg : Z) (text : string) (status : Z) (translation : value)
  (created : string) : row :=
  [VInt id; VInt lg; VText text; VText text; VInt status; translation;
   VNull; VInt 1; VText created; VText created].

Definition schema (words parents langs : list row) : database :=
  [ ("words", mktable words_cols words);
    ("wordimages", mktable ["WiID"; "WiWoID"; "WiSource"] []);
    ("wordtags", mktable ["WtWoID"; "WtTgID"] []);
    ("tags", mktable ["TgID"; "TgText"; "TgComment"] []);
    ("wordparents", mktable ["WpWoID"; "WpParentWoID"] parents);
    ("languages", mktable ["LgID"; "LgName"] langs) ].

(** Three terms with statuses 1, 5, 6 and translations a, empty, c, all
    created today. *)
Definition three_terms : database :=
  schema
    [ word 1 1 "uno" 1 (VText "a") "2024-05-17 09:30:00";
      word 2 1 "dos" 5 (VText "") "2024-05-17 09:31:00";
      word 3 2 "drei" 6 (VText "c") "2024-05-17 09:32:00" ]
    []
    [ [VInt 1; VText "Spanish"]; [VInt 2; VText "German"];
      [VInt 3; VText "French"] ].

(** A term tuple as the parents-only statement returns it for a word
    without tag and image. *)
Definition term_row (text : string) (translation : value) (lg : Z)
  (created : string) (id status : Z) : row :=
  [VText text; translation; VInt lg; VText created; VNull; VText created;
   VText text; VInt id; VInt status; VNull; VInt 1; VNull; VNull].

Definition uno : row :=
  term_row "uno" (VText "a") 1 "2024-05-17 09:30:00" 1 1.
Definition dos : row :=
  term_row "dos" (VText "") 1 "2024-05-17 09:31:00" 2 5.
Definition drei : row :=
  term_row "drei" (VText "c") 2 "2024-05-17 09:32:00" 3 6.

(** Three generations: word 1 is a form of word 2, word 2 a form of
    word 3. *)
Definition family_links : list (Z * Z) := [(1, 2); (2, 3)]%Z.

Definition column_rows (db : database) (tbl : string) : list row :=
  match lookup_table db tbl with
  | Some t => t_rows t
  | None => []
  end.

Definition family : database :=
  schema
    [ word 1 1 "corriendo" 1 (VText "running") "2024-05-17 09:30:00";
      word 2 1 "correr" 1 (VText "to run") "2024-05-17 09:31:00";
      word 3 1 "currere" 1 (VText "run (root)") "2024-05-17 09:32:00" ]
    (map (fun l => [VInt (fst l); VInt (snd l)]) family_links)
    [ [VInt 1; VText "Spanish"] ].

Definition family_without_links : database :=
  schema (column_rows family "words") []
         (column_rows family "languages").

Definition correr : row :=
  term_row "correr" (VText "to run") 1 "2024-05-17 09:31:00" 2 1.
Definition currere : row :=
  term_row "currere" (VText "run (root)") 1 "2024-05-17 09:32:00" 3 1.

(** The joined row of the parents-only statement for word 2: no image,
    hence no tag; the link to its parent; the link from its child. *)
Definition correr_joined : env :=
  [ Some (word 2 1 "correr" 1 (VText "to run") "2024-05-17 09:31:00");
    None; None; None; Some [VInt 2; VInt 3]; Some [VInt 1; VInt 2] ].

Definition lute_path : string := "/home/user/lute.db".

Definition fs_of (db : database) : filesystem :=
  fun p => if String.eqb p lute_path then Db db else Unopenable.

Definition lute : Database.LuteDatabase := Database.mkLuteDatabase lute_path.

(** The same store without its languages table. *)
Definition no_languages : database :=
  filter (fun nt => negb (String.eqb (fst nt) "languages")) three_terms.

(** The class body ran the day before the call. *)
Definition yesterday : date := mkdate 2024 5 16.

(** What the statement without the parent joins dies of. *)
Definition no_wp_child : exn :=
  OperationalError "no such column: wp_child.WpParentWoID".

End Scenario.
(* ===================================================================== *)
(** * The statement of [build_sql_query], parsed *)
(* ===================================================================== *)

Module Parsed.

Import Py Sqlite.

(** The conjuncts of a condition, left to right. *)
Fixpoint conjuncts (c : cond) : list cond :=
  match c with
  | CAnd c1 c2 => (conjuncts c1 ++ conjuncts c2)%list
  | _ => [c]
  end.

Fixpoint rconjuncts (c : rcond) : list rcond :=
  match c with
  | RAnd c1 c2 => (rconjuncts c1 ++ rconjuncts c2)%list
  | _ => [c]
  end.

(** The conjunction of a non-empty list, nested as the parser nests it. *)
Fixpoint conj (c : cond) (cs : list cond) : cond :=
  match cs with
  | [] => c
  | c' :: rest => CAnd c (conj c' rest)
  end.

(** The aliases a condition qualifies a column with. *)
Definition operand_qualifiers (o : operand) : list string :=
  match o with
  | OCol (QCol a _) => [a]
  | _ => []
  end.

Fixpoint qualifiers (c : cond) : list string :=
  match c with
  | CIsNull o | CIsNotNull o => operand_qualifiers o
  | CCmp _ a b => (operand_qualifiers a ++ operand_qualifiers b)%list
  | CAnd c1 c2 | COr c1 c2 => (qualifiers c1 ++ qualifiers c2)%list
  end.

Definition column_name (cr : colref) : string :=
  match cr with
  | Col c | QCol _ c => c
  end.

(** The aliases a FROM clause introduces. *)
Definition from_aliases (q : query) : list string :=
  q_alias q :: map j_alias (q_joins q).

Definition on_eq (a c a' c' : string) : cond :=
  CCmp OpEq (OCol (QCol a c)) (OCol (QCol a' c')).

Definition translation_present : cond :=
  CIsNotNull (OCol (Col "WoTranslation")).

Definition parent_chain : cond :=
  COr (CIsNull (OCol (QCol "wp_child" "WpParentWoID")))
      (CIsNotNull (OCol (QCol "wp_parent" "WpParentWoID"))).

Definition created_since (iso : string) : cond :=
  CCmp OpGe (OCol (Col "WoCreated")) (ODq iso).

Definition translation_nonempty : cond :=
  CCmp OpNe (OCol (Col "WoTranslation")) (OStr "").

Definition status_at_most_5 : cond :=
  CCmp OpLe (OCol (Col "WoStatus")) (OInt 5).

Definition status_at_least_1 : cond :=
  CCmp OpLe (OInt 1) (OCol (Col "WoStatus")).

Definition filter_conditions (empty_translation include_WKI : bool)
  (iso : string) : list cond :=
  ([parent_chain; created_since iso]
     ++ (if negb empty_translation then [translation_nonempty] else [])
     ++ (if negb include_WKI then [status_at_most_5] else [])
     ++ [status_at_least_1])%list.

Definition select_parents_only : list colref :=
  [ QCol "w" "WoText"; QCol "w" "WoTranslation"; QCol "w" "WoLgID";
    QCol "w" "WoCreated"; QCol "t" "TgText"; QCol "w" "WoStatusChanged";
    QCol "w" "WoTextLC"; QCol "w" "WoID"; QCol "w" "WoStatus";
    QCol "w" "WoRomanization"; QCol "w" "WoTokenCount";
    QCol "wi" "WiSource"; QCol "t" "TgComment" ].

Definition select_all_terms : list colref :=
  [ Col "WoText"; Col "WoTranslation"; Col "WoLgID"; Col "WoCreated";
    Col "TgText"; Col "WoStatusChanged"; Col "WoTextLC"; Col "WoID";
    Col "WoStatus"; Col "WoRomanization"; Col "WiSource"; Col "TgComment" ].

Definition joins_all_terms : list join :=
  [ mkjoin "wordimages" "wi" (on_eq "w" "WoID" "wi" "WiWoID");
    mkjoin "wordtags" "wt" (on_eq "wi" "WiWoID" "wt" "WtWoID");
    mkjoin "tags" "t" (on_eq "wt" "WtTgID" "t" "TgID") ].

Definition joins_parents_only : list join :=
  (joins_all_terms
     ++ [ mkjoin "wordparents" "wp_child"
                 (on_eq "w" "WoID" "wp_child" "WpWoID");
          mkjoin "wordparents" "wp_parent"
                 (on_eq "w" "WoID" "wp_parent" "WpParentWoID") ])%list.

(** What SQLite makes of [query_text]. *)
Definition parsed_query (parents_only empty_translation include_WKI : bool)
  (iso : string) : query :=
  mkquery
    (SelCols (if parents_only then select_parents_only else select_all_terms))
    "words" "w"
    (if parents_only then joins_parents_only else joins_all_terms)
    (Some (conj translation_present
                (filter_conditions empty_translation include_WKI iso))).

(** Texts that cannot end a double-quoted token. *)
Fixpoint no_dquote (s : string) : bool :=
  match s with
  | EmptyString => true
  | String c s' => negb (Ascii.eqb c dquote_char) && no_dquote s'
  end.

(** The statement text around the cutoff date. *)
Definition text_before (parents_only : bool) : string :=
  Database.base_query parents_only ++ nl
    ++ "WHERE WoTranslation IS NOT NULL AND (wp_child.WpParentWoID IS NULL OR wp_parent.WpParentWoID IS NOT NULL) AND WoCreated >= ".

Definition text_after (empty_translation include_WKI : bool) : string :=
  (if negb empty_translation then " AND WoTranslation <> ''" else "")
    ++ (if negb include_WKI then " AND WoStatus <= 5" else "")
    ++ " AND 1 <= WoStatus;".

End Parsed.

(* ===================================================================== *)
(** * What [connect] leaves in the trace *)
(* ===================================================================== *)

Module Traces.

Import Py.

(** Wrong file name: one user notice, one error log entry. *)
Definition invalid_events (path : string) : trace :=
  [ ShowInfo "Please select a lute.db file";
    LogError ("[database] Invalid database file selected: " ++ path) ].

(** From the connection to the first statement. *)
Definition opened_events (path : string) : trace :=
  [ ConnOpened path;
    LogInfo ("[database] Successfully connected to database: " ++ path);
    LogInfo "[database] Executing SQL query to fetch terms." ].

(** The [except] clause: the failure's message, logged and shown. *)
Definition failure_events (e : exn) : trace :=
  [ LogError ("[database] Database connection error: " ++ str_of_exn e);
    ShowInfo ("Database connection error: " ++ str_of_exn e) ].

(** The normal end of the [try] block. *)
Definition retrieved_events (path : string) (terms languages : nat) : trace :=
  [ ConnClosed path;
    LogInfo ("[database] Retrieved " ++ str_of_nat terms ++ " terms and "
             ++ str_of_nat languages ++ " languages.") ].

Definition is_opened (e : event) : bool :=
  match e with ConnOpened _ => true | _ => false end.

Definition is_closed (e : event) : bool :=
  match e with ConnClosed _ => true | _ => false end.

Definition is_show_info (e : event) : bool :=
  match e with ShowInfo _ => true | _ => false end.

Definition is_log_error (e : event) : bool :=
  match e with LogError _ => true | _ => false end.

Definition count (f : event -> bool) (t : trace) : nat :=
  List.length (filter f t).

(** Connections opened and not yet closed. *)
Definition open_connections (t : trace) : nat :=
  count is_opened t - count is_closed t.

End Traces.

(* ===================================================================== *)
(** * Terms, languages and what a store holds *)
(* ===================================================================== *)

Module Terms.

Import Py Sqlite.

(** The fields of a term tuple the claims speak of, by position in the
    SELECT list of either statement. *)
Definition term_translation (term : row) : option value := nth_error term 1.
Definition term_lg_id (term : row) : option value := nth_error term 2.
Definition term_created (term : row) : option value := nth_error term 3.
Definition term_id (term : row) : option value := nth_error term 7.
Definition term_status (term : row) : option value := nth_error term 8.

(** The values a column of a table holds, row by row. *)
Definition column_values (db : database) (tbl col : string) : list value :=
  match lookup_table db tbl with
  | Some t =>
      match find_col (t_cols t) col with
      | Some j => map (fun rw => nth j rw VNull) (t_rows t)
      | None => []
      end
  | None => []
  end.

Definition is_text_or_null (v : value) : bool :=
  match v with
  | VNull | VText _ => true
  | VInt _ => false
  end.

(** A column declared TEXT holds text or NULL. *)
Definition text_column (db : database) (tbl col : string) : bool :=
  forallb is_text_or_null (column_values db tbl col).

(** The rows of the languages table: identifier first, name second. *)
Definition language_rows (db : database) : list row :=
  match lookup_table db "languages" with
  | Some t => t_rows t
  | None => []
  end.

Definition language_id (lang : row) : value := nth 0 lang VNull.
Definition language_name (lang : row) : value := nth 1 lang VNull.

Definition language_ids (db : database) : list value :=
  map language_id (language_rows db).

Fixpoint distinct (xs : list value) : bool :=
  match xs with
  | [] => true
  | x :: rest => negb (existsb (value_eqb x) rest) && distinct rest
  end.

(** The identifier is the key of the languages table. *)
Definition languages_keyed (db : database) : bool :=
  distinct (language_ids db).

(** Every term references a language of the store. *)
Definition terms_reference_languages (db : database) : bool :=
  forallb (fun v => existsb (value_eqb v) (language_ids db))
          (column_values db "words" "WoLgID").

(** A column declared NOT NULL. *)
Definition no_null_column (db : database) (tbl col : string) : bool :=
  forallb (fun v => negb (is_null v)) (column_values db tbl col).

(** No table has a column of that name. *)
Definition no_column_named (db : database) (name : string) : bool :=
  forallb (fun nt => match find_col (t_cols (snd nt)) name with
                     | None => true
                     | Some _ => false
                     end) db.

(** SQL's [a = b] being true. *)
Definition sql_eq (a b : value) : bool :=
  match value_compare a b with
  | Some Eq => true
  | _ => false
  end.

(** Some row of [wordparents] has the term as its child. *)
Definition has_parent_link (db : database) (word_id : value) : bool :=
  existsb (sql_eq word_id) (column_values db "wordparents" "WpWoID").

(** Some row of [wordparents] has the term as its parent. *)
Definition is_parent (db : database) (word_id : value) : bool :=
  existsb (sql_eq word_id) (column_values db "wordparents" "WpParentWoID").

End Terms.

(* ===================================================================== *)
(** * The parent-chain condition as the specification words it *)
(* ===================================================================== *)

Module SpecReading.

(** Parent links as pairs (child, parent) of word identifiers. *)
Definition links : Type := list (Z * Z).

Definition has_parent (ls : links) (x : Z) : bool :=
  existsb (fun l => Z.eqb (fst l) x) ls.

(** "term has no parent link OR the term's parent itself has a parent" *)
Definition parent_chain (ls : links) (x : Z) : bool :=
  negb (has_parent ls x)
  || existsb (fun l => Z.eqb (fst l) x && has_parent ls (snd l)) ls.

(** What the statement's joins make of the condition: the term has no
    parent link, or the term is itself the parent of some term. *)
Definition no_parent_or_is_parent (ls : links) (x : Z) : bool :=
  negb (has_parent ls x) || existsb (fun l => Z.eqb (snd l) x) ls.

End SpecReading.


(* ===================================================================== *)
(** * The extraction in plain terms *)
(* ===================================================================== *)

Module Extraction.

Import Py Sqlite Terms.

(** What [connect] makes of a language row. *)
Definition language_pair (lang : row) : list value :=
  [language_id lang; language_name lang].

(** Some term of the list has that language. *)
Definition lg_used (terms : list row) (id : value) : bool :=
  existsb (fun term => match term_lg_id term with
                       | Some v => value_eqb id v
                       | None => false
                       end) terms.

(** The value of a column in a row of a table; NULL when the table has
    no such column. *)
Definition column (t : table) (col : string) (rw : row) : value :=
  match find_col (t_cols t) col with
  | Some j => nth j rw VNull
  | None => VNull
  end.

(** The same for the partner of a LEFT JOIN, which may be missing. *)
Definition column_opt (t : table) (col : string) (partner : option row)
  : value :=
  match partner with
  | Some rw => column t col rw
  | None => VNull
  end.

Definition words_rows (db : database) : list row :=
  match lookup_table db "words" with
  | Some t => t_rows t
  | None => []
  end.

Definition word_field (db : database) (col : string) (word : row) : value :=
  match lookup_table db "words" with
  | Some t => column t col word
  | None => VNull
  end.

(** A comparison that is true, not unknown. *)
Definition cmp_true (op : cmpop) (a b : value) : bool :=
  match value_compare a b with
  | Some c => cmp_holds op c
  | None => false
  end.

(** Some row of [wordimages] belongs to the word. *)
Definition has_image (db : database) (word_id : value) : bool :=
  existsb (sql_eq word_id) (column_values db "wordimages" "WiWoID").

(** The conditions of [build_sql_query], read on a row of [words]. *)
Definition qualifies (db : database) (empty_translation include_WKI : bool)
  (iso : string) (word : row) : bool :=
  negb (is_null (word_field db "WoTranslation" word))
  && (negb (has_parent_link db (word_field db "WoID" word))
      || is_parent db (word_field db "WoID" word))
  && cmp_true OpGe (word_field db "WoCreated" word) (VText iso)
  && (empty_translation
      || cmp_true OpNe (word_field db "WoTranslation" word) (VText ""))
  && (include_WKI
      || cmp_true OpLe (word_field db "WoStatus" word) (VInt 5))
  && cmp_true OpLe (VInt 1) (word_field db "WoStatus" word).

(** The fields of a term that come from [words] are those of this row. *)
Definition term_of_word (db : database) (word term : row) : Prop :=
  forall i col,
    nth_error Parsed.select_parents_only i = Some (QCol "w" col) ->
    nth_error term i = Some (word_field db col word).

(** What a LEFT JOIN leaves at a position: a row of the table for which
    the ON condition is true, or nothing when it is true of no row. *)
Definition partner (t : table) (on : row -> bool) (p : option row) : Prop :=
  match p with
  | Some l => In l (t_rows t) /\ on l = true
  | None => forall l, In l (t_rows t) -> on l = false
  end.



Definition term_tag_text (term : row) : option value := nth_error term 4.
Definition term_image_source (term : row) : option value :=
  nth_error term 11.
Definition term_tag_comment (term : row) : option value :=
  nth_error term 12.

End Extraction.

(* ===================================================================== *)
(** * Calendar order *)
(* ===================================================================== *)

Module Calendar.

Import Py.

(** The bounds [datetime.date] keeps on its fields: years 1 to 9999,
    months 1 to 12, days 1 to 31 at most. *)
Definition valid_date (d : date) : bool :=
  ((1 <=? year d) && (year d <? 1000 * 10)
   && (1 <=? month d) && (month d <=? 12)
   && (1 <=? day d) && (day d <=? 31))%nat.

(** The first difference decides. *)
Definition lex (c k : comparison) : comparison :=
  match c with
  | Eq => k
  | _ => c
  end.

(** Dates compared as Python compares them. *)
Definition date_compare (a b : date) : comparison :=
  lex (Nat.compare (year a) (year b))
      (lex (Nat.compare (month a) (month b))
           (Nat.compare (day a) (day b))).

End Calendar.



(* ===================================================================== *)
(** * A store with a tag *)
(* ===================================================================== *)

Module Tagged.

Import Py Sqlite.

(** One word with the tag noun, and the images given. *)
Definition store (images : list row) : database :=
  [ ("words",
     mktable Scenario.words_cols
       [Scenario.word 1 1 "uno" 1 (VText "a") "2024-05-17 09:30:00"]);
    ("wordimages", mktable ["WiID"; "WiWoID"; "WiSource"] images);
    ("wordtags", mktable ["WtWoID"; "WtTgID"] [[VInt 1; VInt 10]]);
    ("tags",
     mktable ["TgID"; "TgText"; "TgComment"]
       [[VInt 10; VText "noun"; VText "part of speech"]]);
    ("wordparents", mktable ["WpWoID"; "WpParentWoID"] []);
    ("languages", mktable ["LgID"; "LgName"] [[VInt 1; VText "Spanish"]]) ].

End Tagged.

(** Proof steps that recur in the case analysis of [connect]. *)
Ltac failed_run :=
  right; simpl; repeat split; try reflexivity; auto with arith.

Ltac logged_error :=
  let H := fresh in
  let Hlog := fresh in
  intros H Hlog; inversion H; subst; simpl in Hlog; discriminate.

Ltac count_events :=
  unfold Traces.count, Traces.failure_events, Traces.opened_events,
    Traces.retrieved_events, Traces.invalid_events;
  cbn [snd app filter Traces.is_opened List.length].
(* ===================================================================== *)
(** * Strings and the lexer *)
(* ===================================================================== *)

Section Lexing.

Import Py Sqlite Parsed.

Lemma append_assoc (a b c : string) : (a ++ b) ++ c = a ++ (b ++ c).
Proof. induction a as [|x a IH]; simpl; [reflexivity | now rewrite IH]. Qed.

Lemma append_empty_r (a : string) : a ++ "" = a.
Proof. induction a as [|x a IH]; simpl; [reflexivity | now rewrite IH]. Qed.

(** Lexing a text in two pieces. *)
Lemma lex_run_app (a b : string) (m : lmode) :
  lex_run m (a ++ b)
  = let (ta, ma) := lex_run m a in
    let (tb, mb) := lex_run ma b in
    ((ta ++ tb)%list, mb).
Proof.
  revert m. induction a as [|c a IH]; intros m; simpl.
  - destruct (lex_run m b); reflexivity.
  - destruct (lex_step m c) as [ts m1]. rewrite IH.
    destruct (lex_run m1 a) as [ta ma]. destruct (lex_run ma b) as [tb mb].
    now rewrite app_assoc.
Qed.

(** Inside a double-quoted token every other character is taken as is. *)
Lemma lex_run_quoted (s acc : string) :
  no_dquote s = true ->
  lex_run (MDq acc) s = ([], MDq (acc ++ s)).
Proof.
  revert acc. induction s as [|c s IH]; intros acc H; simpl in *.
  - now rewrite append_empty_r.
  - apply andb_true_iff in H as [Hc Hs].
    apply negb_true_iff in Hc. rewrite Hc.
    rewrite (IH _ Hs). unfold snoc. now rewrite append_assoc.
Qed.

Lemma digit_not_dquote (n : nat) : Ascii.eqb (digit n) dquote_char = false.
Proof.
  unfold digit.
  pose proof (Nat.mod_upper_bound n 10 ltac:(discriminate)) as Hlt.
  generalize dependent (n mod 10). intros k Hk.
  do 10 (destruct k as [|k]; [reflexivity|]). lia.
Qed.

Lemma isoformat_no_dquote (d : date) : no_dquote (isoformat d) = true.
Proof.
  unfold isoformat, pad4, pad2.
  cbn [String.append no_dquote].
  rewrite !digit_not_dquote. reflexivity.
Qed.

(** A text with one double-quoted piece in it. *)
Lemma tokenize_around (a b s : string) (ta tb : list token) :
  no_dquote s = true ->
  lex_run MIdle a = (ta, MIdle) ->
  lex_run MIdle b = (tb, MIdle) ->
  tokenize (a ++ dquote ++ s ++ dquote ++ b)
  = Some (ta ++ TDq s :: tb)%list.
Proof.
  intros Hs Ha Hb. unfold tokenize.
  rewrite lex_run_app, Ha.
  change (dquote ++ s ++ dquote ++ b)
    with (String dquote_char (s ++ dquote ++ b)).
  cbn [lex_run lex_step lex_start]. 
  change (lex_start dquote_char) with (@nil token, MDq "").
  cbv iota beta.
  rewrite lex_run_app, (lex_run_quoted s "" Hs).
  change (dquote ++ b) with (String dquote_char b).
  cbn [lex_run lex_step]. rewrite Ascii.eqb_refl. rewrite Hb.
  cbn [lex_finish app]. now rewrite app_nil_r.
Qed.

(** The statement is its fixed text with the cutoff date quoted inside. *)
Lemma query_text_split p e w d :
  Database.query_text p e w d
  = text_before p ++ dquote ++ isoformat d ++ dquote ++ text_after e w.
Proof.
  unfold Database.query_text, Database.where_clause,
    Database.where_conditions, text_before, text_after, Py.join.
  generalize (isoformat d) as iso. intro iso.
  destruct e, w; cbn [negb app String.concat];
    rewrite ?append_assoc; reflexivity.
Qed.

(** SQLite reads every statement of [build_sql_query] as [parsed_query]. *)
Lemma prepare_query_text p e w d :
  prepare (Database.query_text p e w d)
  = Ok (parsed_query p e w (isoformat d)).
Proof.
  rewrite query_text_split. unfold prepare.
  pose proof (isoformat_no_dquote d) as Hd.
  generalize dependent (isoformat d). intros iso Hd.
  destruct p, e, w;
    (erewrite tokenize_around;
     [ | exact Hd | vm_compute; reflexivity | vm_compute; reflexivity ];
     vm_compute; reflexivity).
Qed.

Lemma prepare_languages :
  prepare "SELECT * FROM languages"
  = Ok (mkquery SelStar "languages" "languages" [] None).
Proof. reflexivity. Qed.

End Lexing.

(* ===================================================================== *)
(** * Name resolution *)
(* ===================================================================== *)

Section Resolution.

Import Py Sqlite Parsed.

Lemma rbind_ok {A B} (r : result A) (k : A -> result B) (b : B) :
  rbind r k = Ok b -> exists a, r = Ok a /\ k a = Ok b.
Proof. destruct r as [a|e]; simpl; [eauto | discriminate]. Qed.

Lemma bind_joins_aliases db js sc :
  bind_joins db js = Ok sc -> map fst sc = map j_alias js.
Proof.
  revert sc. induction js as [|j js IH]; intros sc H; simpl in H.
  - now inversion H.
  - apply rbind_ok in H as ([a t] & Hb & H).
    apply rbind_ok in H as (bs & Hbs & H). inversion H; subst.
    unfold bind_table in Hb.
    destruct (lookup_table db (j_table j)); [|discriminate].
    inversion Hb; subst. simpl. now rewrite (IH _ Hbs).
Qed.

(** A scope has exactly the aliases the FROM clause introduces. *)
Lemma bind_from_aliases db q sc :
  bind_from db q = Ok sc -> map fst sc = from_aliases q.
Proof.
  unfold bind_from, from_aliases. intros H.
  apply rbind_ok in H as ([a t] & Hb & H).
  apply rbind_ok in H as (bs & Hbs & H). inversion H; subst.
  unfold bind_table in Hb. destruct (lookup_table db (q_table q)); [|discriminate].
  inversion Hb; subst. simpl. now rewrite (bind_joins_aliases _ _ _ Hbs).
Qed.

Lemma find_alias_none k sc a :
  existsb (fun x => ident_eqb x a) (map fst sc) = false ->
  find_alias k sc a = None.
Proof.
  revert k. induction sc as [|[x t] sc IH]; intros k H; simpl in *.
  - reflexivity.
  - apply orb_false_iff in H as [Hx Hs]. rewrite Hx. now apply IH.
Qed.

Lemma resolve_operand_unknown_alias sc o a :
  In a (operand_qualifiers o) ->
  find_alias 0 sc a = None ->
  exists e, resolve_operand sc o = Raise e.
Proof.
  destruct o as [[c|x c]|z|s|s]; simpl; try tauto.
  intros [->|[]] Hn. rewrite Hn. simpl. eauto.
Qed.

(** A condition that qualifies a column with an alias the scope lacks
    cannot be resolved. *)
Lemma resolve_cond_unknown_alias sc c a :
  In a (qualifiers c) ->
  find_alias 0 sc a = None ->
  exists e, resolve_cond sc c = Raise e.
Proof.
  intros Hin Hn. induction c as [o|o|op x y|c1 IH1 c2 IH2|c1 IH1 c2 IH2];
    simpl in *.
  - destruct (resolve_operand_unknown_alias sc o a Hin Hn) as [e ->]. simpl; eauto.
  - destruct (resolve_operand_unknown_alias sc o a Hin Hn) as [e ->]. simpl; eauto.
  - apply in_app_or in Hin as [Hin|Hin].
    + destruct (resolve_operand_unknown_alias sc x a Hin Hn) as [e ->]. simpl; eauto.
    + destruct (resolve_operand sc x); simpl; [|eauto].
      destruct (resolve_operand_unknown_alias sc y a Hin Hn) as [e ->]. simpl; eauto.
  - apply in_app_or in Hin as [Hin|Hin].
    + destruct (IH1 Hin) as [e ->]. simpl; eauto.
    + destruct (resolve_cond sc c1); simpl; [|eauto].
      destruct (IH2 Hin) as [e ->]. simpl; eauto.
  - apply in_app_or in Hin as [Hin|Hin].
    + destruct (IH1 Hin) as [e ->]. simpl; eauto.
    + destruct (resolve_cond sc c1); simpl; [|eauto].
      destruct (IH2 Hin) as [e ->]. simpl; eauto.
Qed.

(** Such a statement fails when it is prepared, whatever the tables hold. *)
Lemma execute_unknown_alias db sql q c a :
  prepare sql = Ok q ->
  q_where q = Some c ->
  In a (qualifiers c) ->
  existsb (fun x => ident_eqb x a) (from_aliases q) = false ->
  exists e, execute db sql = Raise e.
Proof.
  intros Hp Hw Hin Hal. unfold execute. rewrite Hp. simpl.
  destruct (bind_from db q) as [sc|e] eqn:Hb; simpl; [|eauto].
  unfold resolve.
  destruct (resolve_select sc (q_select q)); simpl; [|eauto].
  rewrite Hw. simpl.
  rewrite <- (bind_from_aliases _ _ _ Hb) in Hal.
  destruct (resolve_cond_unknown_alias sc c a Hin (find_alias_none 0 sc a Hal))
    as [e ->].
  simpl. eauto.
Qed.

End Resolution.

(* ===================================================================== *)
(** * The paths through [connect] *)
(* ===================================================================== *)

Section ConnectPaths.

Import Py Sqlite Database Traces.

Variable fs : filesystem.
Variable self : LuteDatabase.
Variables parents_only empty_translation include_WKI : bool.
Variable cutoff_date : date.

(** [connect], path by path. *)
Lemma connect_paths (t : trace) :
  connect fs self parents_only empty_translation include_WKI cutoff_date t =
  let sql :=
    query_text parents_only empty_translation include_WKI cutoff_date in
  if negb (endswith (db_path self) "lute.db") then
    (Ok ([], []), t ++ invalid_events (db_path self))%list
  else
    match fs (db_path self) with
    | Unopenable =>
        let e := OperationalError "unable to open database file" in
        (Ok ([], []), t ++ failure_events e)%list
    | NotADatabase =>
        let e := DatabaseError "file is not a database" in
        (Ok ([], []),
         t ++ opened_events (db_path self) ++ failure_events e)%list
    | Db db =>
        let failed e :=
          (Ok ([], []),
           t ++ opened_events (db_path self) ++ failure_events e)%list in
        match execute db sql with
        | Raise e => failed e
        | Ok terms =>
            match lg_ids terms with
            | Raise e => failed e
            | Ok ids =>
                match execute db "SELECT * FROM languages" with
                | Raise e => failed e
                | Ok all_languages =>
                    match pair_languages (list_set ids) all_languages with
                    | Raise e => failed e
                    | Ok languages =>
                        (Ok (terms, languages),
                         t ++ opened_events (db_path self)
                           ++ retrieved_events (db_path self)
                                (List.length terms) (List.length languages))%list
                    end
                end
            end
        end
    end.
Proof.
  cbv zeta. unfold Database.connect.
  set (sql := query_text parents_only empty_translation include_WKI
                         cutoff_date).
  destruct (negb (endswith (db_path self) "lute.db")).
  - unfold showInfo, log_error, bind, emit, ret, invalid_events.
    now rewrite <- app_assoc.
  - unfold try_except, connect_try, connect_except, Sqlite.connect,
      execute_fetchall, build_sql_query, close, showInfo, log_info,
      log_error, bind, emit, ret, raise, lift, failure_events,
      opened_events, retrieved_events.
    fold sql.
    destruct (fs (db_path self)) as [| |db]; cbn -[execute sql].
    + now rewrite <- !app_assoc.
    + now rewrite <- !app_assoc.
    + destruct (execute db sql) as [terms|e]; cbn -[execute sql];
        [|now rewrite <- !app_assoc].
      destruct (lg_ids terms) as [ids|e]; cbn -[execute sql];
        [|now rewrite <- !app_assoc].
      destruct (execute db "SELECT * FROM languages") as [all|e];
        cbn -[execute sql]; [|now rewrite <- !app_assoc].
      destruct (pair_languages (list_set ids) all) as [langs|e];
        cbn -[execute sql]; now rewrite <- !app_assoc.
Qed.

End ConnectPaths.

(* ===================================================================== *)
(** * Running a statement *)
(* ===================================================================== *)

Section Running.

Import Py Sqlite Parsed.

Lemma execute_ok db sql rows :
  execute db sql = Ok rows ->
  exists q sc p,
    prepare sql = Ok q /\ bind_from db q = Ok sc /\ resolve sc q = Ok p
    /\ rows = run p.
Proof.
  unfold execute. intros H.
  apply rbind_ok in H as (q & Hq & H).
  apply rbind_ok in H as (sc & Hsc & H).
  apply rbind_ok in H as (p & Hp & H).
  inversion H. eauto 10.
Qed.

Lemma resolve_ok sc q p :
  resolve sc q = Ok p ->
  p_scope p = sc
  /\ resolve_select sc (q_select q) = Ok (p_select p)
  /\ resolve_where sc (q_where q) = Ok (p_where p)
  /\ resolve_ons sc (q_joins q) = Ok (p_ons p).
Proof.
  unfold resolve. intros H.
  apply rbind_ok in H as (sel & Hsel & H).
  apply rbind_ok in H as (w & Hw & H).
  apply rbind_ok in H as (ons & Hons & H).
  inversion H; subst; simpl. auto.
Qed.

(** Every fetched row is the projection of a joined row the WHERE kept. *)
Lemma run_in p r :
  In r (run p) ->
  exists e, In e (from_rows p) /\ keeps p e = true /\ r = project p e.
Proof.
  unfold run. intros H. apply in_map_iff in H as (e & <- & He).
  apply filter_In in He as [He Hk]. eauto.
Qed.

Lemma resolve_cols_nth sc cs rs i c :
  resolve_cols sc cs = Ok rs ->
  nth_error cs i = Some c ->
  exists r, nth_error rs i = Some r /\ resolve_colref sc c = Ok r.
Proof.
  revert rs i. induction cs as [|c0 cs IH]; intros rs i H Hn.
  - destruct i; discriminate.
  - simpl in H. apply rbind_ok in H as (r0 & Hr0 & H).
    apply rbind_ok in H as (rs' & Hrs & H). inversion H; subst.
    destruct i as [|i]; simpl in *.
    + inversion Hn; subst. eauto.
    + eauto.
Qed.

Lemma resolve_cols_length sc cs rs :
  resolve_cols sc cs = Ok rs -> List.length rs = List.length cs.
Proof.
  revert rs. induction cs as [|c0 cs IH]; intros rs H; simpl in H.
  - now inversion H.
  - apply rbind_ok in H as (r0 & Hr0 & H).
    apply rbind_ok in H as (rs' & Hrs & H). inversion H; subst.
    simpl. now rewrite (IH _ Hrs).
Qed.

Lemma project_nth p e i r :
  nth_error (p_select p) i = Some r ->
  nth_error (project p e) i = Some (eval_ref e r).
Proof. intros H. unfold project. now apply map_nth_error. Qed.

Lemma and3_true a b : and3 a b = Some true -> a = Some true /\ b = Some true.
Proof. destruct a as [[|]|], b as [[|]|]; simpl; intros H; try discriminate; auto. Qed.

Lemma holds_and e c1 c2 :
  holds e (RAnd c1 c2) = true -> holds e c1 = true /\ holds e c2 = true.
Proof.
  unfold holds. simpl.
  destruct (and3 (eval_cond e c1) (eval_cond e c2)) as [[|]|] eqn:H;
    try discriminate.
  apply and3_true in H as [-> ->]. auto.
Qed.

(** Where a conjunction is resolved and true, so is each conjunct. *)
Lemma holds_conjunct sc c rc e :
  resolve_cond sc c = Ok rc ->
  holds e rc = true ->
  forall c', In c' (conjuncts c) ->
    exists rc', resolve_cond sc c' = Ok rc' /\ holds e rc' = true.
Proof.
  revert rc. induction c as [o|o|op x y|c1 IH1 c2 IH2|c1 IH1 c2 IH2];
    intros rc Hr Hh c' Hin; simpl in Hin;
    try (destruct Hin as [<-|[]]; eauto; fail).
  simpl in Hr. apply rbind_ok in Hr as (r1 & Hr1 & Hr).
  apply rbind_ok in Hr as (r2 & Hr2 & Hr). inversion Hr; subst.
  apply holds_and in Hh as [H1 H2].
  apply in_app_or in Hin as [Hin|Hin]; eauto.
Qed.

Lemma find_alias_candidates k sc a c i t j :
  find_alias k sc a = Some (i, t) ->
  find_col (t_cols t) c = Some j ->
  In (mkref i j) (candidates k sc c).
Proof.
  revert k. induction sc as [|[x t0] sc IH]; intros k Ha Hc; simpl in *.
  - discriminate.
  - destruct (ident_eqb x a).
    + inversion Ha; subst. rewrite Hc. now left.
    + destruct (find_col (t_cols t0) c); [right|]; eauto.
Qed.

(** An unqualified name that resolves names the same column as any
    qualified form of it that resolves. *)
Lemma same_column sc a c r r' :
  resolve_colref sc (Col c) = Ok r ->
  resolve_colref sc (QCol a c) = Ok r' ->
  r = r'.
Proof.
  simpl. intros Hu Hq.
  destruct (find_alias 0 sc a) as [[i t]|] eqn:Ha; [|discriminate].
  destruct (find_col (t_cols t) c) as [j|] eqn:Hc; [|discriminate].
  inversion Hq; subst.
  pose proof (find_alias_candidates _ _ _ _ _ _ _ Ha Hc) as Hin.
  destruct (candidates 0 sc c) as [|r0 [|r1 rest]]; try discriminate.
  inversion Hu; subst. destruct Hin as [H|[]]. exact H.
Qed.

Lemma join_step_in t on es e' :
  In e' (join_step t on es) ->
  exists e,
    In e es
    /\ ((e' = (e ++ [None])%list
         /\ forall rw, In rw (t_rows t) -> holds (e ++ [Some rw])%list on = false)
        \/ exists rw,
             In rw (t_rows t) /\ e' = (e ++ [Some rw])%list
             /\ holds (e ++ [Some rw])%list on = true).
Proof.
  unfold join_step. intros H. apply in_flat_map in H as (e & He & H).
  exists e. split; [exact He|].
  destruct (filter (fun rw => holds (e ++ [Some rw])%list on) (t_rows t))
    as [|r0 partners] eqn:Hf.
  - destruct H as [<-|[]]. left. split; [reflexivity|].
    intros rw Hrw.
    destruct (holds (e ++ [Some rw])%list on) eqn:Hh; [|reflexivity].
    assert (Hin : In rw (filter (fun rw => holds (e ++ [Some rw])%list on)
                               (t_rows t)))
      by (apply filter_In; auto).
    rewrite Hf in Hin. destruct Hin.
  - right. rewrite <- Hf in H. apply in_map_iff in H as (rw & <- & Hrw).
    apply filter_In in Hrw as [Hrw Hh]. eauto.
Qed.

Lemma join_all_in ts ons es e' :
  In e' (join_all ts ons es) ->
  exists e rest, In e es /\ e' = (e ++ rest)%list.
Proof.
  revert ons es. induction ts as [|t ts IH]; intros ons es H; simpl in H.
  - exists e', []. now rewrite app_nil_r.
  - destruct ons as [|on ons].
    + exists e', []. now rewrite app_nil_r.
    + apply IH in H as (e1 & rest & He1 & ->).
      apply join_step_in in He1 as (e & He & Hcase).
      exists e. destruct Hcase as [[-> _]|(rw & _ & -> & _)];
        eexists; (split; [exact He|]); now rewrite <- app_assoc.
Qed.

(** A joined row starts with a row of the first table. *)
Lemma from_rows_head p a t joined e :
  p_scope p = (a, t) :: joined ->
  In e (from_rows p) ->
  exists rw rest, In rw (t_rows t) /\ e = Some rw :: rest.
Proof.
  unfold from_rows. intros -> H.
  apply join_all_in in H as (e0 & rest & He0 & ->).
  apply in_map_iff in He0 as (rw & <- & Hrw). simpl. eauto.
Qed.

End Running.

(* ===================================================================== *)
(** * Rows of the parents-only statement *)
(* ===================================================================== *)

Section TermRows.

Import Py Sqlite Database Parsed Terms.

Lemma value_eqb_eq a b : value_eqb a b = true <-> a = b.
Proof.
  destruct a as [|x|x], b as [|y|y]; simpl; split; intros H;
    try discriminate; try reflexivity.
  - apply Z.eqb_eq in H. now subst.
  - inversion H. apply Z.eqb_refl.
  - apply String.eqb_eq in H. now subst.
  - inversion H. apply String.eqb_refl.
Qed.

Lemma existsb_value_eqb x xs : existsb (value_eqb x) xs = true <-> In x xs.
Proof.
  rewrite existsb_exists. split.
  - intros (y & Hy & He). apply value_eqb_eq in He. now subst.
  - intros H. exists x. split; [exact H | now apply value_eqb_eq].
Qed.

(** The scope of the parents-only statement: six tables, five of them
    joined, [wordparents] twice. *)
Lemma bind_from_parents_only db e w iso sc :
  bind_from db (parsed_query true e w iso) = Ok sc ->
  exists tw twi twt tt tp,
    lookup_table db "words" = Some tw
    /\ lookup_table db "wordimages" = Some twi
    /\ lookup_table db "wordtags" = Some twt
    /\ lookup_table db "tags" = Some tt
    /\ lookup_table db "wordparents" = Some tp
    /\ sc = [ ("w", tw); ("wi", twi); ("wt", twt); ("t", tt);
              ("wp_child", tp); ("wp_parent", tp) ].
Proof.
  unfold bind_from, parsed_query, bind_table. cbn [q_table q_alias q_joins].
  destruct (lookup_table db "words") as [tw|]; [|discriminate].
  cbn [rbind joins_parents_only joins_all_terms app bind_joins bind_table
       j_table j_alias].
  unfold bind_table.
  destruct (lookup_table db "wordimages") as [twi|]; [|discriminate].
  cbn [rbind].
  destruct (lookup_table db "wordtags") as [twt|]; [|discriminate].
  cbn [rbind].
  destruct (lookup_table db "tags") as [tt|]; [|discriminate].
  cbn [rbind].
  destruct (lookup_table db "wordparents") as [tp|]; [|discriminate].
  cbn [rbind]. intros H. inversion H. eauto 12.
Qed.

(** A fetched row, field by field. *)
Lemma row_field sc q p e cs i c :
  resolve sc q = Ok p ->
  q_select q = SelCols cs ->
  nth_error cs i = Some c ->
  exists r,
    resolve_colref sc c = Ok r
    /\ nth_error (project p e) i = Some (eval_ref e r).
Proof.
  intros Hr Hs Hn. apply resolve_ok in Hr as (_ & Hsel & _).
  rewrite Hs in Hsel. simpl in Hsel.
  destruct (resolve_cols_nth _ _ _ _ _ Hsel Hn) as (r & Hnr & Hc).
  exists r. split; [exact Hc | now apply project_nth].
Qed.

Lemma row_length sc q p e cs :
  resolve sc q = Ok p ->
  q_select q = SelCols cs ->
  List.length (project p e) = List.length cs.
Proof.
  intros Hr Hs. apply resolve_ok in Hr as (_ & Hsel & _).
  rewrite Hs in Hsel. simpl in Hsel.
  unfold project. rewrite length_map. now apply resolve_cols_length in Hsel.
Qed.

(** A fetched row satisfies each conjunct of the WHERE clause. *)
Lemma row_condition sc q p e wc c :
  resolve sc q = Ok p ->
  q_where q = Some wc ->
  keeps p e = true ->
  In c (conjuncts wc) ->
  exists rc, resolve_cond sc c = Ok rc /\ holds e rc = true.
Proof.
  intros Hr Hw Hk Hin. apply resolve_ok in Hr as (_ & _ & Hrw & _).
  rewrite Hw in Hrw. simpl in Hrw.
  apply rbind_ok in Hrw as (rc & Hrc & Hrw). inversion Hrw as [Hpw].
  unfold keeps in Hk. rewrite <- Hpw in Hk.
  eapply holds_conjunct; eauto.
Qed.

Lemma conjuncts_filter e w iso :
  conjuncts (conj translation_present (filter_conditions e w iso))
  = translation_present :: filter_conditions e w iso.
Proof. destruct e, w; reflexivity. Qed.

(** A qualified column of the first table is read off the first row of
    the joined row. *)
Lemma eval_first_table (sc : scope) a t joined c r rw rest :
  sc = (a, t) :: joined ->
  ident_eqb a a = true ->
  resolve_colref sc (QCol a c) = Ok r ->
  exists j,
    find_col (t_cols t) c = Some j
    /\ eval_ref (Some rw :: rest) r = nth j rw VNull.
Proof.
  intros -> Ha. simpl. rewrite Ha.
  destruct (find_col (t_cols t) c) as [j|]; [|discriminate].
  intros H. inversion H; subst. exists j. split; reflexivity.
Qed.

End TermRows.

Section ReturnedTerms.

Import Py Sqlite Database Parsed Terms Traces.

(** The first statement cannot be prepared without its parent joins. *)
Lemma all_terms_statement_fails db e w d :
  exists ex, execute db (query_text false e w d) = Raise ex.
Proof.
  eapply execute_unknown_alias with (a := "wp_child").
  - apply prepare_query_text.
  - reflexivity.
  - destruct e, w; simpl; auto.
  - reflexivity.
Qed.

(** What [connect] returns is either the empty pair or the rows of its
    two statements. *)
Lemma connect_returns fs self p e w d t terms languages :
  fst (connect fs self p e w d t) = Ok (terms, languages) ->
  (terms = [] /\ languages = [])
  \/ exists db ids all_languages,
       fs (db_path self) = Db db
       /\ p = true
       /\ execute db (query_text true e w d) = Ok terms
       /\ lg_ids terms = Ok ids
       /\ execute db "SELECT * FROM languages" = Ok all_languages
       /\ pair_languages (list_set ids) all_languages = Ok languages.
Proof.
  rewrite connect_paths.
  destruct (negb (endswith (db_path self) "lute.db"));
    [intros H; inversion H; auto|].
  destruct (fs (db_path self)) as [| |db] eqn:Hfs;
    try (intros H; inversion H; auto; fail).
  cbv zeta.
  destruct (execute db (query_text p e w d)) as [ts|ex] eqn:Hex;
    [|intros H; inversion H; auto].
  destruct p.
  2:{ destruct (all_terms_statement_fails db e w d) as [ex Hf].
      rewrite Hf in Hex. discriminate. }
  destruct (lg_ids ts) as [ids|ex] eqn:Hids; [|intros H; inversion H; auto].
  destruct (execute db "SELECT * FROM languages") as [all|ex] eqn:Hall;
    [|intros H; inversion H; auto].
  destruct (pair_languages (list_set ids) all) as [langs|ex] eqn:Hlangs;
    intros H; inversion H; subst; auto.
  right. exists db, ids, all. auto 10.
Qed.

(** An exception of the [try] block ends in the [except] clause. *)
Lemma connect_try_raise fs self p e w d t ex t' :
  endswith (db_path self) "lute.db" = true ->
  connect_try fs self p e w d t = (Raise ex, t') ->
  connect fs self p e w d t = (Ok ([], []), t' ++ failure_events ex)%list.
Proof.
  intros Hend Hat. unfold Database.connect. rewrite Hend.
  change (negb true) with false. cbv iota.
  unfold try_except. rewrite Hat.
  unfold connect_except, log_error, showInfo, bind, emit, ret,
    failure_events.
  now rewrite <- app_assoc.
Qed.

Lemma lg_ids_ok terms :
  (forall term, In term terms -> 3 <= List.length term) ->
  lg_ids terms = Ok (map (fun term => nth 2 term VNull) terms).
Proof.
  induction terms as [|term terms IH]; intros H; simpl; [reflexivity|].
  rewrite IH by (intros x Hx; apply H; now right).
  assert (Hl : 3 <= List.length term) by (apply H; now left).
  unfold index.
  destruct term as [|a [|b [|c rest]]]; simpl in Hl; try lia.
  reflexivity.
Qed.

(** Once the connection is open, an exception leaves it open: the
    [except] clause does not close it. *)
Lemma failure_leaves_connection_open fs self p e w d ex t' :
  endswith (db_path self) "lute.db" = true ->
  fs (db_path self) <> Unopenable ->
  connect_try fs self p e w d [] = (Raise ex, t') ->
  open_connections (snd (connect fs self p e w d [])) = 1.
Proof.
  intros Hend Hfs Hat.
  rewrite (connect_try_raise _ _ _ _ _ _ _ _ _ Hend Hat).
  unfold connect_try, Sqlite.connect, execute_fetchall, build_sql_query,
    close, log_info, bind, emit, ret, raise, lift in Hat.
  destruct (fs (db_path self)) as [| |db]; [congruence | |];
    cbn -[execute query_text] in Hat.
  - inversion Hat; subst. reflexivity.
  - destruct (execute db (query_text p e w d)) as [ts|];
      cbn -[execute query_text] in Hat; [|inversion Hat; subst; reflexivity].
    destruct (lg_ids ts) as [ids|];
      cbn -[execute query_text] in Hat; [|inversion Hat; subst; reflexivity].
    destruct (execute db "SELECT * FROM languages") as [al|];
      cbn -[execute query_text] in Hat; [|inversion Hat; subst; reflexivity].
    destruct (pair_languages (list_set ids) al);
      cbn -[execute query_text] in Hat; inversion Hat; subst; reflexivity.
Qed.

(** A call that leaves out every argument builds the statement of the
    defaults, the cutoff being the day the defaults were evaluated. *)
Lemma omitted_arguments_use_defaults def_day self t :
  fst (call_build_sql_query (def_build_sql_query def_day) self
                            None None None None t)
  = Ok (query_text false false false def_day).
Proof. reflexivity. Qed.

(** Whatever happens, [connect] returns a pair. *)
Lemma connect_returns_pair fs self p e w d t :
  exists r, fst (connect fs self p e w d t) = Ok r.
Proof.
  rewrite connect_paths.
  destruct (negb (endswith (db_path self) "lute.db")); [simpl; eauto|].
  destruct (fs (db_path self)) as [| |db]; try (simpl; eauto; fail).
  cbv zeta.
  destruct (execute db (query_text p e w d)) as [ts|ex]; [|simpl; eauto].
  destruct (lg_ids ts) as [ids|ex]; [|simpl; eauto].
  destruct (execute db "SELECT * FROM languages") as [al|ex];
    [|simpl; eauto].
  destruct (pair_languages (list_set ids) al) as [langs|ex]; simpl; eauto.
Qed.

(** A returned term is a row of the parents-only join that the WHERE
    clause kept. *)
Lemma parents_only_term db e w d terms term :
  execute db (query_text true e w d) = Ok terms ->
  In term terms ->
  exists sc p en,
    bind_from db (parsed_query true e w (isoformat d)) = Ok sc
    /\ resolve sc (parsed_query true e w (isoformat d)) = Ok p
    /\ In en (from_rows p)
    /\ keeps p en = true
    /\ term = project p en.
Proof.
  intros Hex Hin.
  apply execute_ok in Hex as (q & sc & p & Hq & Hsc & Hp & ->).
  rewrite prepare_query_text in Hq. inversion Hq; subst q.
  apply run_in in Hin as (en & Hen & Hk & ->).
  exists sc, p, en. auto.
Qed.

Lemma parents_only_term_length db e w d terms term :
  execute db (query_text true e w d) = Ok terms ->
  In term terms ->
  List.length term = 13.
Proof.
  intros Hex Hin.
  destruct (parents_only_term _ _ _ _ _ _ Hex Hin)
    as (sc & p & en & _ & Hp & _ & _ & ->).
  now rewrite (row_length _ _ _ en _ Hp eq_refl).
Qed.

(** The terms statement returns tuples long enough for [term[2]]. *)
Lemma lg_ids_of_terms db p e w d terms :
  execute db (query_text p e w d) = Ok terms ->
  lg_ids terms = Ok (map (fun term => nth 2 term VNull) terms).
Proof.
  intros Hex. apply lg_ids_ok. intros term Hin.
  destruct p.
  - rewrite (parents_only_term_length _ _ _ _ _ _ Hex Hin). lia.
  - destruct (all_terms_statement_fails db e w d) as [ex Hf].
    rewrite Hf in Hex. discriminate.
Qed.

(** Field [i] of a returned term, when it is a column of [words]: the
    value comes from that column of the store, and the conditions of the
    WHERE clause hold of the joined row it was read from. *)
Lemma parents_only_term_field db e w d terms term i col :
  execute db (query_text true e w d) = Ok terms ->
  In term terms ->
  nth_error select_parents_only i = Some (QCol "w" col) ->
  exists sc en r,
    bind_from db (parsed_query true e w (isoformat d)) = Ok sc
    /\ nth_error term i = Some (eval_ref en r)
    /\ resolve_colref sc (QCol "w" col) = Ok r
    /\ (forall c, In c (translation_present
                          :: filter_conditions e w (isoformat d)) ->
          exists rc, resolve_cond sc c = Ok rc /\ holds en rc = true)
    /\ In (eval_ref en r) (column_values db "words" col).
Proof.
  intros Hex Hin Hn.
  destruct (parents_only_term _ _ _ _ _ _ Hex Hin)
    as (sc & p & en & Hsc & Hp & Hen & Hk & ->).
  destruct (row_field _ _ _ en _ _ _ Hp eq_refl Hn) as (r & Hr & Hf).
  exists sc, en, r. repeat split; try assumption.
  - intros c Hc. eapply row_condition; eauto; [reflexivity|].
    now rewrite conjuncts_filter.
  - destruct (bind_from_parents_only _ _ _ _ _ Hsc)
      as (tw & twi & twt & tt & tp & Hw & _ & _ & _ & _ & Hs).
    pose proof (resolve_ok _ _ _ Hp) as (Hps & _).
    rewrite Hs in Hps.
    destruct (from_rows_head _ _ _ _ _ Hps Hen) as (rw & rest & Hrw & ->).
    destruct (eval_first_table _ _ _ _ col r rw rest Hs eq_refl Hr)
      as (j & Hj & ->).
    unfold column_values. rewrite Hw, Hj.
    now apply (in_map (fun x => nth j x VNull)).
Qed.

End ReturnedTerms.

(* ===================================================================== *)
(** * Comparisons *)
(* ===================================================================== *)

Section Comparisons.

Import Py Sqlite.

Lemma holds_cmp e op a b :
  holds e (RCmp op a b) = true ->
  exists c,
    value_compare (eval_operand e a) (eval_operand e b) = Some c
    /\ cmp_holds op c = true.
Proof.
  unfold holds. simpl.
  destruct (value_compare (eval_operand e a) (eval_operand e b)) as [c|];
    simpl; [|discriminate].
  destruct (cmp_holds op c) eqn:H; [eauto | discriminate].
Qed.

Lemma holds_is_not_null e o :
  holds e (RIsNotNull o) = true -> eval_operand e o <> VNull.
Proof.
  unfold holds. simpl. destruct (eval_operand e o); simpl; congruence.
Qed.

(** [z <= v] holds of an integer from [z] up, and of any text. *)
Lemma int_le_value z v c :
  value_compare (VInt z) v = Some c -> cmp_holds OpLe c = true ->
  v <> VNull /\ forall y, v = VInt y -> (z <= y)%Z.
Proof.
  destruct v as [|y|s]; simpl; intros H Hc; try discriminate.
  - inversion H; subst. split; [discriminate|].
    intros y' Hy. inversion Hy; subst.
    destruct (Z.compare_spec z y'); simpl in Hc; try discriminate; lia.
  - split; [discriminate | intros y Hy; discriminate].
Qed.

(** [v <= z] holds of an integer up to [z] only. *)
Lemma value_le_int v z c :
  value_compare v (VInt z) = Some c -> cmp_holds OpLe c = true ->
  exists y, v = VInt y /\ (y <= z)%Z.
Proof.
  destruct v as [|y|s]; simpl; intros H Hc; try discriminate.
  - inversion H; subst. exists y. split; [reflexivity|].
    destruct (Z.compare_spec y z); simpl in Hc; try discriminate; lia.
  - inversion H; subst. discriminate.
Qed.

Lemma string_compare_refl s : String.compare s s = Eq.
Proof.
  induction s as [|a s IH]; simpl; [reflexivity|].
  destruct (Ascii.compare a a) eqn:Ha; try exact IH.
  - pose proof (Ascii.compare_antisym a a) as Hs. rewrite Ha in Hs. discriminate.
  - pose proof (Ascii.compare_antisym a a) as Hs. rewrite Ha in Hs. discriminate.
Qed.

(** [v <> s] excludes the text [s] itself, and NULL. *)
Lemma value_ne_text v s c :
  value_compare v (VText s) = Some c -> cmp_holds OpNe c = true ->
  v <> VNull /\ v <> VText s.
Proof.
  destruct v as [|y|x]; simpl; intros H Hc; try discriminate.
  - split; discriminate.
  - inversion H; subst. split; [discriminate|].
    intros Hx. inversion Hx; subst. rewrite string_compare_refl in Hc.
    discriminate.
Qed.

End Comparisons.

(* ===================================================================== *)
(** * Languages *)
(* ===================================================================== *)

Section Languages.

Import Py Sqlite Database Parsed Terms.

(** [SELECT * FROM languages] returns the rows of the table, each cut or
    padded to the number of columns. *)
Lemma execute_languages db all_languages :
  execute db "SELECT * FROM languages" = Ok all_languages ->
  exists t,
    lookup_table db "languages" = Some t
    /\ all_languages
       = map (fun rw =>
                map (fun j => nth j rw VNull)
                    (seq 0 (List.length (t_cols t))))
             (t_rows t).
Proof.
  intros H. apply execute_ok in H as (q & sc & p & Hq & Hsc & Hp & ->).
  rewrite prepare_languages in Hq. inversion Hq; subst q. clear Hq.
  unfold bind_from, bind_table in Hsc. cbn [q_table q_alias q_joins] in Hsc.
  destruct (lookup_table db "languages") as [t|] eqn:Ht; [|discriminate].
  simpl in Hsc. inversion Hsc; subst sc. clear Hsc.
  unfold resolve in Hp. simpl in Hp. inversion Hp; subst p. clear Hp.
  exists t. split; [reflexivity|].
  unfold run, from_rows, keeps, project. simpl.
  rewrite app_nil_r.
  induction (t_rows t) as [|rw rows IH]; simpl; [reflexivity|].
  rewrite IH. f_equal. rewrite map_map. reflexivity.
Qed.

Lemma index_nth t i v : index t i = Ok v -> nth i t VNull = v.
Proof.
  unfold index. destruct (nth_error t i) as [x|] eqn:H; [|discriminate].
  intros E. inversion E; subst. now apply nth_error_nth.
Qed.

(** Every pair returned comes from a language row whose identifier is
    used. *)
Lemma pair_languages_sound used all_languages languages pair :
  pair_languages used all_languages = Ok languages ->
  In pair languages ->
  exists lang id name,
    In lang all_languages
    /\ index lang 0 = Ok id
    /\ index lang 1 = Ok name
    /\ py_in id used = true
    /\ pair = [id; name].
Proof.
  revert languages.
  induction all_languages as [|lang rest IH]; intros languages H Hin;
    simpl in H.
  - inversion H; subst. destruct Hin.
  - apply rbind_ok in H as (id & Hid & H).
    destruct (py_in id used) eqn:Hu.
    + apply rbind_ok in H as (id' & Hid' & H).
      apply rbind_ok in H as (name & Hname & H).
      apply rbind_ok in H as (ls & Hls & H). inversion H; subst.
      rewrite Hid in Hid'. inversion Hid'; subst id'.
      destruct Hin as [<-|Hin].
      * exists lang, id, name. simpl. auto 10.
      * destruct (IH _ Hls Hin) as (l & i & n & Hl & Hrest).
        exists l, i, n. simpl. auto.
    + destruct (IH _ H Hin) as (l & i & n & Hl & Hrest).
      exists l, i, n. simpl. auto.
Qed.

(** Every language row whose identifier is used gives a pair. *)
Lemma pair_languages_complete used all_languages languages lang :
  pair_languages used all_languages = Ok languages ->
  In lang all_languages ->
  exists id,
    index lang 0 = Ok id
    /\ (py_in id used = true ->
        exists name, index lang 1 = Ok name /\ In [id; name] languages).
Proof.
  revert languages.
  induction all_languages as [|l0 rest IH]; intros languages H Hin;
    simpl in H; [destruct Hin|].
  apply rbind_ok in H as (id & Hid & H).
  destruct (py_in id used) eqn:Hu.
  - apply rbind_ok in H as (id' & Hid' & H).
    apply rbind_ok in H as (name & Hname & H).
    apply rbind_ok in H as (ls & Hls & H). inversion H; subst.
    rewrite Hid in Hid'. inversion Hid'; subst id'.
    destruct Hin as [<-|Hin].
    + exists id. split; [exact Hid|]. intros _. exists name. simpl. auto.
    + destruct (IH _ Hls Hin) as (i & Hi & Hc). exists i.
      split; [exact Hi|]. intros Hp. destruct (Hc Hp) as (n & Hn & Hl).
      exists n. simpl. auto.
  - destruct Hin as [<-|Hin].
    + exists id. split; [exact Hid|]. rewrite Hu. discriminate.
    + eauto.
Qed.

(** No identifier is paired twice when no two rows share one. *)
Lemma pair_languages_nodup used all_languages languages :
  pair_languages used all_languages = Ok languages ->
  NoDup (map language_id all_languages) ->
  NoDup (map language_id languages).
Proof.
  revert languages.
  induction all_languages as [|lang rest IH]; intros languages H Hnd;
    simpl in H.
  - inversion H. constructor.
  - simpl in Hnd. inversion Hnd as [|x xs Hnotin Hnd']; subst.
    apply rbind_ok in H as (id & Hid & H).
    destruct (py_in id used) eqn:Hu; [|eauto].
    apply rbind_ok in H as (id' & Hid' & H).
    apply rbind_ok in H as (name & Hname & H).
    apply rbind_ok in H as (ls & Hls & H). inversion H; subst.
    rewrite Hid in Hid'. inversion Hid'; subst id'.
    simpl. constructor; [|eauto].
    intros Hin. apply in_map_iff in Hin as (pair & Hpid & Hpair).
    destruct (pair_languages_sound _ _ _ _ Hls Hpair)
      as (l & i & n & Hl & Hi & _ & _ & ->).
    apply Hnotin. apply in_map_iff. exists l. split; [|exact Hl].
    unfold language_id in *. simpl in Hpid. subst i.
    rewrite (index_nth _ _ _ Hi). symmetry. now apply index_nth.
Qed.

Lemma distinct_NoDup xs : distinct xs = true -> NoDup xs.
Proof.
  induction xs as [|x xs IH]; simpl; intros H; constructor.
  - apply andb_true_iff in H as [H _]. apply negb_true_iff in H.
    intros Hin. apply existsb_value_eqb in Hin. congruence.
  - apply andb_true_iff in H as [_ H]. auto.
Qed.

Lemma in_list_set x xs : In x (list_set xs) <-> In x xs.
Proof.
  induction xs as [|y xs IH]; simpl; [tauto|].
  destruct (existsb (value_eqb y) xs) eqn:He.
  - rewrite IH. split; [auto|]. intros [<-|H]; [|exact H].
    now apply existsb_value_eqb.
  - simpl. rewrite IH. tauto.
Qed.

Lemma py_in_list_set x xs : py_in x (list_set xs) = true <-> In x xs.
Proof. unfold py_in. rewrite existsb_value_eqb. apply in_list_set. Qed.

(** Position [i] of a row fetched by [SELECT *] is column [i] of the
    stored row. *)
Lemma star_index n rw i v :
  index (map (fun j => nth j rw VNull) (seq 0 n)) i = Ok v ->
  v = nth i rw VNull.
Proof.
  unfold index. rewrite nth_error_map, nth_error_seq.
  destruct (Nat.ltb i n); simpl; intros H; inversion H. reflexivity.
Qed.

End Languages.

(* ===================================================================== *)
(** * LEFT JOIN chains *)
(* ===================================================================== *)

Section JoinChains.

Import Py Sqlite Database Parsed Terms.

Lemma join_step_length t on es n e' :
  (forall e, In e es -> List.length e = n) ->
  In e' (join_step t on es) ->
  List.length e' = S n.
Proof.
  intros Hn H. apply join_step_in in H as (e & He & Hcase).
  destruct Hcase as [[-> _]|(rw & _ & -> & _)];
    rewrite length_app, (Hn _ He); simpl; lia.
Qed.

(** Position by position, a joined row holds for each joined table either
    a partner row, for which the ON condition is true, or nothing, when the
    condition is true of no row of the table. *)
Lemma join_all_nth ts ons es n e' :
  (forall e, In e es -> List.length e = n) ->
  List.length ts = List.length ons ->
  In e' (join_all ts ons es) ->
  List.length e' = n + List.length ts
  /\ forall k t on,
       nth_error ts k = Some t ->
       nth_error ons k = Some on ->
       match nth_error e' (n + k) with
       | Some (Some rw) =>
           In rw (t_rows t)
           /\ holds (firstn (n + k) e' ++ [Some rw])%list on = true
       | Some None =>
           forall rw, In rw (t_rows t) ->
             holds (firstn (n + k) e' ++ [Some rw])%list on = false
       | None => False
       end.
Proof.
  revert ons es n. induction ts as [|t0 ts IH]; intros ons es n Hn Hlen Hin.
  - simpl in Hin. split; [rewrite (Hn _ Hin); simpl; lia|].
    intros [|k] t on Ht; discriminate.
  - destruct ons as [|on0 ons]; [discriminate|].
    simpl in Hlen, Hin. injection Hlen as Hlen.
    pose proof (fun e1 => join_step_length t0 on0 es n e1 Hn) as Hn'.
    destruct (IH ons _ (S n) Hn' Hlen Hin) as [Hl Hk].
    split; [simpl; lia|].
    intros [|k] t on Ht Hon; simpl in Ht, Hon.
    + inversion Ht; subst t0. inversion Hon; subst on0. clear Ht Hon.
      apply join_all_in in Hin as (e1 & rest & He1 & ->).
      apply join_step_in in He1 as (e & He & Hcase).
      rewrite Nat.add_0_r. pose proof (Hn _ He) as Hle.
      destruct Hcase as [[-> Hnone]|(rw & Hrw & -> & Hh)].
      * rewrite <- app_assoc. simpl.
        rewrite nth_error_app2 by lia. rewrite Hle, Nat.sub_diag. simpl.
        rewrite firstn_app, Hle, Nat.sub_diag, firstn_all2 by lia. simpl.
        rewrite app_nil_r. exact Hnone.
      * rewrite <- app_assoc. simpl.
        rewrite nth_error_app2 by lia. rewrite Hle, Nat.sub_diag. simpl.
        rewrite firstn_app, Hle, Nat.sub_diag, firstn_all2 by lia. simpl.
        rewrite app_nil_r. auto.
    + replace (n + S k) with (S n + k) by lia. now apply Hk.
Qed.

Lemma eval_ref_app_l e1 e2 r :
  r_alias r < List.length e1 ->
  eval_ref (e1 ++ e2)%list r = eval_ref e1 r.
Proof. intros H. unfold eval_ref. now rewrite nth_error_app1. Qed.

Lemma eval_ref_firstn m e r :
  r_alias r < m ->
  eval_ref (firstn m e) r = eval_ref e r.
Proof.
  intros H. unfold eval_ref. now rewrite nth_error_firstn, (proj2 (Nat.ltb_lt _ _) H).
Qed.

Lemma eval_ref_last e rw j :
  eval_ref (e ++ [Some rw])%list (mkref (List.length e) j) = nth j rw VNull.
Proof.
  unfold eval_ref. simpl.
  rewrite nth_error_app2 by lia. now rewrite Nat.sub_diag.
Qed.

Lemma holds_eq_cols e r1 r2 :
  holds e (RCmp OpEq (RCol r1) (RCol r2))
  = sql_eq (eval_ref e r1) (eval_ref e r2).
Proof.
  unfold holds, sql_eq. simpl.
  destruct (value_compare (eval_ref e r1) (eval_ref e r2)) as [[| |]|];
    reflexivity.
Qed.

Lemma resolve_on_eq sc a c a' c' rc :
  resolve_cond sc (on_eq a c a' c') = Ok rc ->
  exists r1 r2,
    resolve_colref sc (QCol a c) = Ok r1
    /\ resolve_colref sc (QCol a' c') = Ok r2
    /\ rc = RCmp OpEq (RCol r1) (RCol r2).
Proof.
  unfold on_eq. cbn [resolve_cond resolve_operand]. intros H.
  apply rbind_ok in H as (ra & Hra & H).
  apply rbind_ok in H as (rb & Hrb & H).
  apply rbind_ok in Hra as (r1 & Hr1 & Hra).
  apply rbind_ok in Hrb as (r2 & Hr2 & Hrb).
  inversion Hra; inversion Hrb; inversion H; subst. eauto.
Qed.

Lemma resolve_qcol_at sc a c i t r :
  resolve_colref sc (QCol a c) = Ok r ->
  find_alias 0 sc a = Some (i, t) ->
  exists j, find_col (t_cols t) c = Some j /\ r = mkref i j.
Proof.
  intros H Ha. cbn [resolve_colref] in H. rewrite Ha in H.
  destruct (find_col (t_cols t) c) as [j|]; [|discriminate].
  inversion H. eauto.
Qed.

Lemma column_values_at db tbl col t j rw :
  lookup_table db tbl = Some t ->
  find_col (t_cols t) col = Some j ->
  In rw (t_rows t) ->
  In (nth j rw VNull) (column_values db tbl col).
Proof.
  intros Ht Hj Hrw. unfold column_values. rewrite Ht, Hj.
  now apply (in_map (fun x => nth j x VNull)).
Qed.

Lemma column_values_none db tbl col t j (f : value -> bool) :
  lookup_table db tbl = Some t ->
  find_col (t_cols t) col = Some j ->
  (forall rw, In rw (t_rows t) -> f (nth j rw VNull) = false) ->
  existsb f (column_values db tbl col) = false.
Proof.
  intros Ht Hj Hf. unfold column_values. rewrite Ht, Hj.
  destruct (existsb f (map (fun rw => nth j rw VNull) (t_rows t))) eqn:He;
    [|reflexivity].
  apply existsb_exists in He as (v & Hv & Hfv).
  apply in_map_iff in Hv as (rw & <- & Hrw). rewrite (Hf _ Hrw) in Hfv.
  discriminate.
Qed.

(** What the parent-chain condition says of a joined row of the
    parents-only statement: the word has no parent link, or the word is
    itself the parent in some link. *)
Lemma parent_chain_meaning db e w iso sc p rc en :
  bind_from db (parsed_query true e w iso) = Ok sc ->
  resolve sc (parsed_query true e w iso) = Ok p ->
  resolve_cond sc parent_chain = Ok rc ->
  no_null_column db "wordparents" "WpParentWoID" = true ->
  In en (from_rows p) ->
  exists word_ref,
    resolve_colref sc (QCol "w" "WoID") = Ok word_ref
    /\ (holds en rc = true
        <-> has_parent_link db (eval_ref en word_ref) = false
            \/ is_parent db (eval_ref en word_ref) = true).
Proof.
  intros Hsc Hp Hrc Hnn Hen.
  destruct (bind_from_parents_only _ _ _ _ _ Hsc)
    as (tw & twi & twt & tt & tp & Hw & _ & _ & _ & Hwp & ->).
  cbn [parent_chain resolve_cond resolve_operand] in Hrc.
  apply rbind_ok in Hrc as (rc1 & Hrc1 & Hrc).
  apply rbind_ok in Hrc as (rc2 & Hrc2 & Hrc). inversion Hrc; subst rc.
  apply rbind_ok in Hrc1 as (o1 & Ho1 & Hrc1). inversion Hrc1; subst rc1.
  apply rbind_ok in Hrc2 as (o2 & Ho2 & Hrc2). inversion Hrc2; subst rc2.
  apply rbind_ok in Ho1 as (r4 & Hr4 & Ho1). inversion Ho1; subst o1.
  apply rbind_ok in Ho2 as (r5 & Hr5 & Ho2). inversion Ho2; subst o2.
  destruct (resolve_qcol_at _ _ _ _ _ _ Hr4 eq_refl) as (jp & Hjp & ->).
  destruct (resolve_qcol_at _ _ _ _ _ _ Hr5 eq_refl) as (jp' & Hjp' & ->).
  rewrite Hjp in Hjp'. inversion Hjp'; subst jp'. clear Hjp'.
  clear Hrc Hrc1 Hrc2 Ho1 Ho2 Hr4 Hr5.
  destruct (resolve_ok _ _ _ Hp) as (Hps & _ & _ & Hons).
  cbn [parsed_query q_joins joins_parents_only joins_all_terms app
       resolve_ons j_on] in Hons.
  apply rbind_ok in Hons as (on1 & _ & Hons).
  apply rbind_ok in Hons as (ons & Hons & Hq). inversion Hq as [Hq1]. clear Hq.
  apply rbind_ok in Hons as (on2 & _ & Hons).
  apply rbind_ok in Hons as (ons2 & Hons & Hq). inversion Hq; subst ons. clear Hq.
  apply rbind_ok in Hons as (on3 & _ & Hons).
  apply rbind_ok in Hons as (ons3 & Hons & Hq). inversion Hq; subst ons2. clear Hq.
  apply rbind_ok in Hons as (on4 & Hon4 & Hons).
  apply rbind_ok in Hons as (ons4 & Hons & Hq). inversion Hq; subst ons3. clear Hq.
  apply rbind_ok in Hons as (on5 & Hon5 & Hons).
  apply rbind_ok in Hons as (ons5 & Hons & Hq). inversion Hq; subst ons4. clear Hq.
  simpl in Hons. inversion Hons; subst ons5. clear Hons.
  destruct (resolve_on_eq _ _ _ _ _ _ Hon4) as (ra & rb & Hra & Hrb & ->).
  destruct (resolve_qcol_at _ _ _ _ _ _ Hra eq_refl) as (jid & Hjid & ->).
  destruct (resolve_qcol_at _ _ _ _ _ _ Hrb eq_refl) as (jc & Hjc & ->).
  exists (mkref 0 jid). split; [exact Hra|]. clear Hra Hrb Hon4.
  destruct (resolve_on_eq _ _ _ _ _ _ Hon5) as (ra & rb & Hra & Hrb & ->).
  destruct (resolve_qcol_at _ _ _ _ _ _ Hra eq_refl) as (j0 & Hj0 & ->).
  destruct (resolve_qcol_at _ _ _ _ _ _ Hrb eq_refl) as (j1 & Hj1 & ->).
  rewrite Hjid in Hj0. inversion Hj0; subst j0.
  rewrite Hjp in Hj1. inversion Hj1; subst j1. clear Hj0 Hj1 Hra Hrb Hon5.
  unfold from_rows in Hen. rewrite Hps, <- Hq1 in Hen. cbn [map snd] in Hen.
  apply join_all_nth with (n := 1) in Hen as [Hlen Hpos];
    [ | intros x Hx; apply in_map_iff in Hx as (rw & <- & _); reflexivity
      | reflexivity ].
  cbn [List.length Nat.add] in Hlen.
  pose proof (Hpos 3 tp _ eq_refl eq_refl) as H4.
  pose proof (Hpos 4 tp _ eq_refl eq_refl) as H5.
  clear Hpos. cbn [Nat.add] in H4, H5.
  assert (Hl4 : List.length (firstn 4 en) = 4)
    by (rewrite length_firstn; lia).
  assert (Hl5 : List.length (firstn 5 en) = 5)
    by (rewrite length_firstn; lia).
  assert (Hon4 : forall l,
             holds (firstn 4 en ++ [Some l])%list
                   (RCmp OpEq (RCol (mkref 0 jid)) (RCol (mkref 4 jc)))
             = sql_eq (eval_ref en (mkref 0 jid)) (nth jc l VNull)).
  { intros l. rewrite holds_eq_cols.
    rewrite eval_ref_app_l, eval_ref_firstn by (cbn [r_alias]; lia).
    rewrite <- Hl4 at 2. now rewrite eval_ref_last. }
  assert (Hon5 : forall l,
             holds (firstn 5 en ++ [Some l])%list
                   (RCmp OpEq (RCol (mkref 0 jid)) (RCol (mkref 5 jp)))
             = sql_eq (eval_ref en (mkref 0 jid)) (nth jp l VNull)).
  { intros l. rewrite holds_eq_cols.
    rewrite eval_ref_app_l, eval_ref_firstn by (cbn [r_alias]; lia).
    rewrite <- Hl5 at 2. now rewrite eval_ref_last. }
  unfold no_null_column in Hnn. rewrite forallb_forall in Hnn.
  assert (Hnot : forall l, In l (t_rows tp) -> is_null (nth jp l VNull) = false).
  { intros l Hl. apply negb_true_iff. apply Hnn.
    eapply column_values_at; eauto. }
  unfold holds. cbn [eval_cond eval_operand].
  unfold eval_ref at 1 2. cbn [r_alias r_col].
  unfold has_parent_link, is_parent.
  destruct (nth_error en 4) as [[l4|]|]; [| |destruct H4];
    (destruct (nth_error en 5) as [[l5|]|]; [| |destruct H5]).
  - destruct H4 as [Hin4 H4], H5 as [Hin5 H5].
    rewrite Hon4 in H4. rewrite Hon5 in H5.
    rewrite (Hnot _ Hin4), (Hnot _ Hin5). simpl.
    split; [intros _; right|reflexivity].
    apply existsb_exists. exists (nth jp l5 VNull).
    split; [eapply column_values_at; eauto | exact H5].
  - destruct H4 as [Hin4 H4]. rewrite Hon4 in H4.
    rewrite (Hnot _ Hin4). simpl.
    split; [discriminate|]. intros [Hno|Hyes].
    + exfalso.
      assert (Hex : existsb (sql_eq (eval_ref en (mkref 0 jid)))
                      (column_values db "wordparents" "WpWoID") = true).
      { apply existsb_exists. exists (nth jc l4 VNull).
        split; [eapply column_values_at; eauto | exact H4]. }
      congruence.
    + exfalso.
      rewrite (column_values_none _ _ _ _ _ _ Hwp Hjp) in Hyes;
        [discriminate|].
      intros rw Hrw. rewrite <- Hon5. now apply H5.
  - destruct H5 as [Hin5 H5]. rewrite Hon5 in H5. simpl.
    split; [intros _; left | reflexivity].
    apply (column_values_none _ _ _ _ _ _ Hwp Hjc).
    intros rw Hrw. rewrite <- Hon4. now apply H4.
  - simpl. split; [intros _; left | reflexivity].
    apply (column_values_none _ _ _ _ _ _ Hwp Hjc).
    intros rw Hrw. rewrite <- Hon4. now apply H4.
Qed.

(** A term that the parents-only statement returns has no parent link,
    or is itself the parent of some term. *)
Lemma returned_term_parent_condition db e w d terms term :
  no_null_column db "wordparents" "WpParentWoID" = true ->
  execute db (query_text true e w d) = Ok terms ->
  In term terms ->
  exists word_id,
    term_id term = Some word_id
    /\ (has_parent_link db word_id = false \/ is_parent db word_id = true).
Proof.
  intros Hnn Hex Hin.
  destruct (parents_only_term _ _ _ _ _ _ Hex Hin)
    as (sc & p & en & Hsc & Hp & Hen & Hk & ->).
  destruct (row_condition _ _ _ en _ parent_chain Hp eq_refl Hk)
    as (rc & Hrc & Hh).
  { rewrite conjuncts_filter. simpl. auto. }
  destruct (parent_chain_meaning _ _ _ _ _ _ _ _ Hsc Hp Hrc Hnn Hen)
    as (r & Hr & Hiff).
  destruct (row_field _ _ _ en _ 7 _ Hp eq_refl eq_refl) as (r7 & Hr7 & Hf).
  rewrite Hr in Hr7. inversion Hr7; subst r7.
  exists (eval_ref en r). split; [exact Hf | now apply Hiff].
Qed.

Lemma lookup_table_in db name t :
  lookup_table db name = Some t -> exists n, In (n, t) db.
Proof.
  induction db as [|[n t0] db IH]; simpl; [discriminate|].
  destruct (ident_eqb n name).
  - intros H. inversion H; subst. eauto.
  - intros H. destruct (IH H) as [n' Hn']. eauto.
Qed.

Lemma no_column_named_at db name tbl t :
  no_column_named db name = true ->
  lookup_table db tbl = Some t ->
  find_col (t_cols t) name = None.
Proof.
  intros Hn Ht. apply lookup_table_in in Ht as [n Hin].
  unfold no_column_named in Hn. rewrite forallb_forall in Hn.
  specialize (Hn _ Hin). simpl in Hn.
  destruct (find_col (t_cols t) name); [discriminate | reflexivity].
Qed.

(** A term that the parents-only statement returns was created on the
    cutoff date or later. *)
Lemma returned_term_created db e w d terms term :
  no_column_named db (isoformat d) = true ->
  execute db (query_text true e w d) = Ok terms ->
  In term terms ->
  exists created c,
    term_created term = Some created
    /\ value_compare created (VText (isoformat d)) = Some c
    /\ c <> Lt.
Proof.
  intros Hno Hex Hin.
  destruct (parents_only_term_field _ _ _ _ _ _ 3 "WoCreated" Hex Hin eq_refl)
    as (sc & en & r & Hsc & Hf & Hr & Hcs & _).
  destruct (bind_from_parents_only _ _ _ _ _ Hsc)
    as (tw & twi & twt & tt & tp & Hw & Hwi & Hwt & Ht & Hwp & ->).
  assert (Hm : In (created_since (isoformat d))
                  (translation_present
                     :: filter_conditions e w (isoformat d)))
    by (simpl; auto).
  destruct (Hcs _ Hm) as (rc & Hrc & Hh).
  cbn [created_since resolve_cond resolve_operand] in Hrc.
  apply rbind_ok in Hrc as (o1 & Ho1 & Hrc).
  apply rbind_ok in Ho1 as (r' & Hr' & Ho1). inversion Ho1; subst o1.
  assert (r' = r) by (eapply same_column; eauto). subst r'.
  cbn [candidates snd] in Hrc.
  rewrite (no_column_named_at _ _ _ _ Hno Hw),
    (no_column_named_at _ _ _ _ Hno Hwi),
    (no_column_named_at _ _ _ _ Hno Hwt),
    (no_column_named_at _ _ _ _ Hno Ht),
    (no_column_named_at _ _ _ _ Hno Hwp) in Hrc.
  simpl in Hrc. inversion Hrc; subst rc.
  apply holds_cmp in Hh as (c & Hv & Hc). simpl in Hv.
  exists (eval_ref en r), c. split; [exact Hf|]. split; [exact Hv|].
  intros ->. discriminate.
Qed.

(** A term that the parents-only statement returns has a translation. *)
Lemma returned_term_translation_present db e w d terms term :
  execute db (query_text true e w d) = Ok terms ->
  In term terms ->
  exists translation,
    term_translation term = Some translation /\ translation <> VNull.
Proof.
  intros Hex Hin.
  destruct (parents_only_term_field _ _ _ _ _ _ 1 "WoTranslation"
              Hex Hin eq_refl)
    as (sc & en & r & Hsc & Hf & Hr & Hcs & _).
  destruct (Hcs translation_present) as (rc & Hrc & Hh); [now left|].
  cbn [translation_present resolve_cond resolve_operand] in Hrc.
  apply rbind_ok in Hrc as (o1 & Ho1 & Hrc).
  apply rbind_ok in Ho1 as (r' & Hr' & Ho1). inversion Ho1; subst o1.
  inversion Hrc; subst rc.
  assert (r' = r) by (eapply same_column; eauto). subst r'.
  apply holds_is_not_null in Hh. simpl in Hh.
  exists (eval_ref en r). auto.
Qed.


End JoinChains.

(* ===================================================================== *)
(** * The claims *)
(* ===================================================================== *)

Section Claims.

Import Py Sqlite Database Parsed Terms Traces Scenario.

(** C1, as the code has it. Whatever the options, the statement of
    [build_sql_query] is the SELECT and FROM text followed by WHERE and its
    conditions joined by AND, and SQLite reads it as the conjunction of
    those conditions. The first three are always: the translation is not
    NULL; [wp_child.WpParentWoID IS NULL OR wp_parent.WpParentWoID IS NOT
    NULL]; the creation date is at or after the quoted cutoff date, the
    comparison being true of equal values. The flag [parents_only] changes
    the SELECT list and the joins and leaves the WHERE clause as it is.
    Under the joins of the parents-only statement, where [wp_child] are the
    links with the term as child and [wp_parent] the links with the term as
    parent, every returned term has a translation, was created at or after
    the cutoff, and has no parent link or is itself the parent of some
    term. *)
Theorem where_clause_conditions :
  forall parents_only empty_translation include_WKI cutoff_date,
    let iso := isoformat cutoff_date in
    let sql :=
      query_text parents_only empty_translation include_WKI cutoff_date in
    (forall self t,
        fst (build_sql_query self parents_only empty_translation include_WKI
                             cutoff_date t) = Ok sql)
    /\ sql = base_query parents_only ++ nl ++ "WHERE "
             ++ Py.join " AND "
                  (where_conditions empty_translation include_WKI cutoff_date)
             ++ ";"
    /\ (exists more,
          where_conditions empty_translation include_WKI cutoff_date
          = "WoTranslation IS NOT NULL"
            :: "(wp_child.WpParentWoID IS NULL OR wp_parent.WpParentWoID IS NOT NULL)"
            :: ("WoCreated >= " ++ dquote ++ iso ++ dquote)
            :: more)
    /\ (exists q c more,
          prepare sql = Ok q
          /\ q_where q = Some c
          /\ conjuncts c
             = translation_present :: parent_chain :: created_since iso
                 :: more
          /\ q_where (parsed_query (negb parents_only) empty_translation
                                   include_WKI iso) = Some c
          /\ (parents_only = true ->
              In (mkjoin "wordparents" "wp_child"
                         (on_eq "w" "WoID" "wp_child" "WpWoID")) (q_joins q)
              /\ In (mkjoin "wordparents" "wp_parent"
                            (on_eq "w" "WoID" "wp_parent" "WpParentWoID"))
                    (q_joins q)))
    /\ cmp_holds OpGe Eq = true
    /\ (forall db sc p rc en,
          parents_only = true ->
          bind_from db (parsed_query parents_only empty_translation
                                     include_WKI iso) = Ok sc ->
          resolve sc (parsed_query parents_only empty_translation
                                   include_WKI iso) = Ok p ->
          resolve_cond sc parent_chain = Ok rc ->
          no_null_column db "wordparents" "WpParentWoID" = true ->
          In en (from_rows p) ->
          exists word_ref,
            resolve_colref sc (QCol "w" "WoID") = Ok word_ref
            /\ (holds en rc = true
                <-> has_parent_link db (eval_ref en word_ref) = false
                    \/ is_parent db (eval_ref en word_ref) = true))
    /\ (forall db terms term,
          execute db sql = Ok terms ->
          In term terms ->
          (exists translation,
              term_translation term = Some translation
              /\ translation <> VNull)
          /\ (no_column_named db iso = true ->
              exists created c,
                term_created term = Some created
                /\ value_compare created (VText iso) = Some c
                /\ c <> Lt)
          /\ (no_null_column db "wordparents" "WpParentWoID" = true ->
              exists word_id,
                term_id term = Some word_id
                /\ (has_parent_link db word_id = false
                    \/ is_parent db word_id = true))).
Proof.
  intros p e w d iso sql.
  split; [reflexivity|]. split; [reflexivity|].
  split; [destruct e, w; eexists; reflexivity|].
  split.
  { exists (parsed_query p e w iso). eexists. eexists.
    split; [apply prepare_query_text|]. split; [reflexivity|].
    split; [rewrite conjuncts_filter; reflexivity|].
    split; [destruct p; reflexivity|].
    intros ->. simpl. auto 10. }
  split; [reflexivity|].
  split.
  { intros db sc pl rc en -> Hsc Hpl Hrc Hnn Hen.
    eapply parent_chain_meaning; eauto. }
  intros db terms term Hex Hin. unfold sql in Hex. destruct p.
  - split; [eapply returned_term_translation_present; eauto|].
    split; intros H.
    + eapply returned_term_created; eauto.
    + eapply returned_term_parent_condition; eauto.
  - destruct (all_terms_statement_fails db e w d) as [ex Hf].
    rewrite Hf in Hex. discriminate.
Qed.

Lemma where_clause_conditions_witness :
  (exists rc word_ref,
      holds correr_joined rc = true
      <-> has_parent_link family (eval_ref correr_joined word_ref) = false
          \/ is_parent family (eval_ref correr_joined word_ref) = true)
  /\ (exists translation,
        term_translation correr = Some translation /\ translation <> VNull)
  /\ (exists created c,
        term_created correr = Some created
        /\ value_compare created (VText (isoformat today)) = Some c
        /\ c <> Lt)
  /\ (exists word_id,
        term_id correr = Some word_id
        /\ (has_parent_link family word_id = false
            \/ is_parent family word_id = true)).
Proof.
  pose proof (proj2 (proj2 (proj2 (proj2 (proj2
                (where_clause_conditions true false false today))))))
    as [Hrow Hterm].
  split.
  - edestruct (Hrow family) with (en := correr_joined)
      as (word_ref & _ & Hiff).
    + reflexivity.
    + vm_compute. reflexivity.
    + vm_compute. reflexivity.
    + vm_compute. reflexivity.
    + reflexivity.
    + vm_compute. auto.
    + eexists. exists word_ref. exact Hiff.
  - destruct (Hterm family [correr; currere] correr) as (H1 & H2 & H3).
    + vm_compute. reflexivity.
    + simpl. auto.
    + split; [exact H1|].
      split; [apply H2 | apply H3]; vm_compute; reflexivity.
Defined.

(** C1, as the specification words the parent-chain condition. Word 1 is
    a form of word 2 and word 2 a form of word 3. Read as "the term has no
    parent link, or the term's parent itself has a parent", the condition
    keeps words 1 and 3 and drops word 2; the parents-only statement
    returns words 2 and 3 and not word 1, although it returns all three
    once the links are taken away. *)
Lemma parent_chain_reading_fails :
  SpecReading.parent_chain family_links 1 = true
  /\ SpecReading.parent_chain family_links 2 = false
  /\ SpecReading.parent_chain family_links 3 = true
  /\ map (SpecReading.no_parent_or_is_parent family_links) [1; 2; 3]%Z
     = [false; true; true]
  /\ column_values family "wordparents" "WpWoID"
     = map (fun l => VInt (fst l)) family_links
  /\ column_values family "wordparents" "WpParentWoID"
     = map (fun l => VInt (snd l)) family_links
  /\ fst (connect (fs_of family) lute true false false today [])
     = Ok ([correr; currere], [[VInt 1; VText "Spanish"]])
  /\ map term_id [correr; currere] = [Some (VInt 2); Some (VInt 3)]
  /\ (exists terms languages,
        fst (connect (fs_of family_without_links)
                     lute true false false today [])
        = Ok (terms, languages)
        /\ map term_id terms
           = [Some (VInt 1); Some (VInt 2); Some (VInt 3)])
  /\ ~ (forall x,
          In (Some (VInt x)) (map term_id [correr; currere]) ->
          SpecReading.parent_chain family_links x = true).
Proof.
  repeat split; try (vm_compute; reflexivity).
  - eexists. eexists. split; vm_compute; reflexivity.
  - intros H. specialize (H 2%Z). simpl in H.
    assert (Hf : false = true) by (apply H; auto).
    discriminate.
Qed.

(** C2 (the code at the scenario's input). The store holds three terms
    with statuses 1, 5, 6 and translations a, empty, c, all created today.
    With the default options, [parents_only] false among them, [connect]
    returns no term at all: the statement fails on [wp_child]. With
    [parents_only] true and the other options unchanged it returns exactly
    the term with status 1 and translation a. *)
Theorem default_options_return_nothing :
  connect (fs_of three_terms) lute false false false today []
  = (Ok ([], []),
     (opened_events lute_path ++ failure_events no_wp_child)%list)
  /\ fst (connect (fs_of three_terms) lute true false false today [])
     = Ok ([uno], [[VInt 1; VText "Spanish"]]).
Proof. split; vm_compute; reflexivity. Qed.

(** C3. With [parents_only] false the statement of [build_sql_query]
    qualifies columns with [wp_child] and [wp_parent] in its WHERE clause
    while its FROM clause introduces only [w], [wi], [wt] and [t]; the
    statement therefore fails on every database, and [connect] returns the
    empty pair whatever the store holds. *)
Theorem all_terms_statement_never_runs :
  forall empty_translation include_WKI cutoff_date,
    let sql := query_text false empty_translation include_WKI cutoff_date in
    (forall self t, fst (build_sql_query self false empty_translation
                           include_WKI cutoff_date t) = Ok sql)
    /\ (exists q c,
          prepare sql = Ok q
          /\ q_where q = Some c
          /\ In "wp_child" (qualifiers c)
          /\ In "wp_parent" (qualifiers c)
          /\ from_aliases q = ["w"; "wi"; "wt"; "t"])
    /\ (forall db, exists ex, execute db sql = Raise ex)
    /\ (forall fs self t,
          fst (connect fs self false empty_translation include_WKI
                       cutoff_date t) = Ok ([], [])).
Proof.
  intros e w d sql. split; [reflexivity|]. split; [|split].
  - exists (parsed_query false e w (isoformat d)).
    eexists. split; [apply prepare_query_text|].
    split; [reflexivity|]. destruct e, w; simpl; auto 10.
  - intros db. apply all_terms_statement_fails.
  - intros fs self t.
    destruct (connect_returns_pair fs self false e w d t)
      as [[terms langs] Hc].
    rewrite Hc.
    apply connect_returns in Hc
      as [[-> ->]|(db & ids & al & _ & Hp & _)];
      [reflexivity | discriminate].
Qed.

(** C4. [connect] never raises. A path that does not end with lute.db
    opens no connection, shows one notice, logs one error and returns the
    empty pair. Any failure inside the [try] block is turned into the
    empty pair after its message is logged and shown; a failure of
    [sqlite3.connect] and a failure of either statement are such
    failures. *)
Theorem connect_absorbs_failures :
  forall fs self parents_only empty_translation include_WKI cutoff_date t,
    let path := db_path self in
    let sql := query_text parents_only empty_translation include_WKI
                          cutoff_date in
    let run :=
      connect fs self parents_only empty_translation include_WKI
              cutoff_date in
    let attempt :=
      connect_try fs self parents_only empty_translation include_WKI
                  cutoff_date in
    (exists r, fst (run t) = Ok r)
    /\ (endswith path "lute.db" = false ->
        run t = (Ok ([], []), t ++ invalid_events path)%list
        /\ count is_opened (invalid_events path) = 0
        /\ count is_show_info (invalid_events path) = 1
        /\ count is_log_error (invalid_events path) = 1)
    /\ (endswith path "lute.db" = true ->
        forall ex t',
          attempt t = (Raise ex, t') ->
          run t = (Ok ([], []), t' ++ failure_events ex)%list)
    /\ (forall ex,
          fst (Sqlite.connect fs path t) = Raise ex ->
          fst (attempt t) = Raise ex)
    /\ (forall conn t1 ex,
          Sqlite.connect fs path t = (Ok conn, t1) ->
          fst (execute_fetchall conn sql []) = Raise ex ->
          fst (attempt t) = Raise ex)
    /\ (forall conn t1 terms ex,
          Sqlite.connect fs path t = (Ok conn, t1) ->
          fst (execute_fetchall conn sql []) = Ok terms ->
          fst (execute_fetchall conn "SELECT * FROM languages" [])
          = Raise ex ->
          fst (attempt t) = Raise ex).
Proof.
  intros fs self p e w d t path sql run attempt.
  split; [apply connect_returns_pair|].
  split; [|split; [|split; [|split]]].
  - intros Hend. unfold run. rewrite connect_paths.
    fold path. rewrite Hend. simpl. auto.
  - intros Hend ex t' Hat. now apply connect_try_raise.
  - intros ex Hco. unfold attempt, connect_try, bind. fold path.
    destruct (Sqlite.connect fs path t) as [[conn|ex'] t1]; simpl in *;
      [discriminate | now inversion Hco].
  - intros conn t1 ex Hco Hq. unfold attempt, connect_try, bind. fold path.
    rewrite Hco. unfold log_info, build_sql_query, bind, emit, ret.
    fold sql.
    unfold execute_fetchall, lift, raise in *.
    destruct (c_file conn); simpl in *; try (now inversion Hq).
    destruct (execute db sql); simpl in *;
      [discriminate | now inversion Hq].
  - intros conn t1 terms ex Hco Hq1 Hq2.
    unfold attempt, connect_try, bind. fold path.
    rewrite Hco. unfold log_info, build_sql_query, bind, emit, ret.
    fold sql.
    unfold execute_fetchall, lift, raise in *.
    destruct (c_file conn); simpl in *; try discriminate.
    destruct (execute db sql) as [ts|] eqn:Hex; simpl in *; [|discriminate].
    rewrite (lg_ids_of_terms _ _ _ _ _ _ Hex). simpl.
    destruct (execute db "SELECT * FROM languages"); simpl in *;
      [discriminate | now inversion Hq2].
Qed.

Lemma connect_absorbs_failures_witness :
  (connect (fs_of three_terms) (mkLuteDatabase "/tmp/notlute.sqlite")
           true false false today []
   = (Ok ([], []), invalid_events "/tmp/notlute.sqlite")
   /\ count is_opened (invalid_events "/tmp/notlute.sqlite") = 0
   /\ count is_show_info (invalid_events "/tmp/notlute.sqlite") = 1
   /\ count is_log_error (invalid_events "/tmp/notlute.sqlite") = 1)
  /\ connect (fs_of three_terms) lute false false false today []
     = (Ok ([], []),
        (opened_events lute_path ++ failure_events no_wp_child)%list)
  /\ fst (connect_try (fun _ => Unopenable) lute true false false today [])
     = Raise (OperationalError "unable to open database file")
  /\ fst (connect_try (fs_of three_terms) lute false false false today [])
     = Raise no_wp_child
  /\ fst (connect_try (fs_of no_languages) lute true false false today [])
     = Raise (OperationalError "no such table: languages").
Proof.
  split; [|split; [|split; [|split]]].
  - apply (proj1 (proj2 (connect_absorbs_failures
             (fs_of three_terms) (mkLuteDatabase "/tmp/notlute.sqlite")
             true false false today []))).
    reflexivity.
  - apply (proj1 (proj2 (proj2 (connect_absorbs_failures
             (fs_of three_terms) lute false false false today [])))).
    + reflexivity.
    + vm_compute. reflexivity.
  - apply (proj1 (proj2 (proj2 (proj2 (connect_absorbs_failures
             (fun _ => Unopenable) lute true false false today []))))).
    reflexivity.
  - apply (proj1 (proj2 (proj2 (proj2 (proj2 (connect_absorbs_failures
             (fs_of three_terms) lute false false false today [])))))
             (mkconn lute_path (Db three_terms)) [ConnOpened lute_path]).
    + reflexivity.
    + vm_compute. reflexivity.
  - apply (proj2 (proj2 (proj2 (proj2 (proj2 (connect_absorbs_failures
             (fs_of no_languages) lute true false false today [])))))
             (mkconn lute_path (Db no_languages)) [ConnOpened lute_path]
             [uno]).
    + reflexivity.
    + vm_compute. reflexivity.
    + vm_compute. reflexivity.
Defined.

(** C5. The languages [connect] returns are those of the returned
    terms: each is a pair of an identifier and its name in the store's
    languages table, and its identifier is that of some returned term;
    the identifier being the key of the languages table, none occurs
    twice; every term referencing a language of the store, the language
    of every returned term is among them. *)
Theorem languages_are_those_of_terms :
  forall fs self db parents_only empty_translation include_WKI cutoff_date
         t terms languages,
    fs (db_path self) = Db db ->
    fst (connect fs self parents_only empty_translation include_WKI
                 cutoff_date t) = Ok (terms, languages) ->
    (forall lang, In lang languages ->
       exists id name,
         lang = [id; name]
         /\ (exists rw, In rw (language_rows db)
                        /\ language_id rw = id /\ language_name rw = name)
         /\ (exists term, In term terms /\ term_lg_id term = Some id))
    /\ (languages_keyed db = true -> NoDup (map language_id languages))
    /\ (terms_reference_languages db = true ->
        forall term, In term terms ->
          exists id name,
            term_lg_id term = Some id /\ In [id; name] languages).
Proof.
  intros fs self db p e w d t terms languages Hfs Hc.
  apply connect_returns in Hc
    as [[-> ->]|(db' & ids & al & Hfs' & -> & Hex & Hids & Hal & Hpl)].
  { split; [intros x []|]. split; [intros _; constructor|].
    intros _ x []. }
  rewrite Hfs in Hfs'. inversion Hfs'; subst db'. clear Hfs'.
  rewrite (lg_ids_of_terms _ _ _ _ _ _ Hex) in Hids.
  inversion Hids; subst ids. clear Hids.
  destruct (execute_languages _ _ Hal) as (tl & Htl & ->).
  assert (Hrows : language_rows db = t_rows tl)
    by (unfold language_rows; now rewrite Htl).
  assert (Hfield : forall term, In term terms ->
            exists v, term_lg_id term = Some v
                      /\ nth 2 term VNull = v
                      /\ In v (column_values db "words" "WoLgID")).
  { intros term Hin.
    destruct (parents_only_term_field _ _ _ _ _ _ 2 "WoLgID" Hex Hin eq_refl)
      as (sc & en & r & Hsc & Hf & _ & _ & Hcol).
    exists (eval_ref en r). split; [exact Hf|]. split; [|exact Hcol].
    now apply nth_error_nth. }
  split; [|split].
  - intros lang Hin.
    destruct (pair_languages_sound _ _ _ _ Hpl Hin)
      as (l & id & name & Hl & Hid & Hname & Hu & ->).
    apply in_map_iff in Hl as (rw & <- & Hrw).
    apply star_index in Hid. apply star_index in Hname.
    exists id, name. split; [reflexivity|]. split.
    + exists rw. rewrite Hrows. unfold language_id, language_name. auto.
    + apply py_in_list_set in Hu. apply in_map_iff in Hu as (term & Ht & Hin').
      exists term. split; [exact Hin'|].
      destruct (Hfield _ Hin') as (v & Hv & Hn & _). congruence.
  - intros Hkey. apply (pair_languages_nodup _ _ _ Hpl).
    unfold languages_keyed, language_ids in Hkey. rewrite Hrows in Hkey.
    apply distinct_NoDup in Hkey.
    assert (Hcase : t_rows tl = [] \/ 0 < List.length (t_cols tl)).
    { destruct (t_rows tl) as [|rw0 rows0]; [now left | right].
      destruct (pair_languages_complete _ _ _
                  (map (fun j => nth j rw0 VNull)
                       (seq 0 (List.length (t_cols tl)))) Hpl)
        as (id0 & Hid0 & _); [now left|].
      unfold index in Hid0. rewrite nth_error_map, nth_error_seq in Hid0.
      destruct (Nat.ltb_spec 0 (List.length (t_cols tl)));
        [assumption | discriminate]. }
    destruct Hcase as [Hr|Hn]; [rewrite Hr; constructor|].
    rewrite map_map.
    erewrite map_ext; [exact Hkey|].
    intros rw. unfold language_id.
    destruct (List.length (t_cols tl)); [lia | reflexivity].
  - intros Href term Hin.
    destruct (Hfield _ Hin) as (v & Hv & Hn & Hcol).
    unfold terms_reference_languages in Href.
    rewrite forallb_forall in Href. specialize (Href _ Hcol).
    apply existsb_value_eqb in Href.
    unfold language_ids in Href. rewrite Hrows in Href.
    apply in_map_iff in Href as (rw & Hrw & Hin').
    destruct (pair_languages_complete _ _ _
                (map (fun j => nth j rw VNull)
                     (seq 0 (List.length (t_cols tl)))) Hpl)
      as (id & Hid & Hc).
    { now apply (in_map (fun x => map (fun j => nth j x VNull)
                                  (seq 0 (List.length (t_cols tl))))). }
    pose proof (star_index _ _ _ _ Hid) as Hid'.
    unfold language_id in Hrw. rewrite Hrw in Hid'. subst id.
    destruct Hc as (name & _ & Hl).
    + apply py_in_list_set. apply in_map_iff. exists term. auto.
    + exists v, name. auto.
Qed.

Lemma languages_are_those_of_terms_witness :
  (forall lang, In lang [[VInt 1; VText "Spanish"]; [VInt 2; VText "German"]] ->
     exists id name,
       lang = [id; name]
       /\ (exists rw, In rw (language_rows three_terms)
                      /\ language_id rw = id /\ language_name rw = name)
       /\ (exists term, In term [uno; dos; drei]
                        /\ term_lg_id term = Some id))
  /\ NoDup (map language_id
                [[VInt 1; VText "Spanish"]; [VInt 2; VText "German"]])
  /\ (forall term, In term [uno; dos; drei] ->
        exists id name,
          term_lg_id term = Some id
          /\ In [id; name]
                [[VInt 1; VText "Spanish"]; [VInt 2; VText "German"]]).
Proof.
  destruct (languages_are_those_of_terms (fs_of three_terms) lute three_terms
              true true true today [] [uno; dos; drei]
              [[VInt 1; VText "Spanish"]; [VInt 2; VText "German"]])
    as (H1 & H2 & H3).
  - reflexivity.
  - vm_compute. reflexivity.
  - split; [exact H1|]. split; [apply H2 | apply H3]; reflexivity.
Defined.

(** C6. For all filter options no returned term has status 0 (the status is
    not NULL either, and an integer status is at least 1); with
    [include_WKI] false every returned term has an integer status between 1
    and 5; with [include_WKI] true a term with status above 5 can be
    returned. *)
Theorem returned_status_bounds :
  (forall fs self parents_only empty_translation include_WKI cutoff_date t
          terms languages term,
      fst (connect fs self parents_only empty_translation include_WKI
                   cutoff_date t) = Ok (terms, languages) ->
      In term terms ->
      exists status,
        term_status term = Some status
        /\ status <> VInt 0
        /\ status <> VNull
        /\ (forall z, status = VInt z -> (1 <= z)%Z)
        /\ (include_WKI = false ->
            exists z, status = VInt z /\ (1 <= z <= 5)%Z))
  /\ (exists fs self parents_only empty_translation cutoff_date t
             terms languages term z,
        fst (connect fs self parents_only empty_translation true
                     cutoff_date t) = Ok (terms, languages)
        /\ In term terms
        /\ term_status term = Some (VInt z)
        /\ (5 < z)%Z).
Proof.
  split.
  - intros fs self p e w d t terms languages term Hc Hin.
    apply connect_returns in Hc
      as [[-> _]|(db & ids & al & _ & -> & Hex & _)]; [destruct Hin|].
    destruct (parents_only_term_field _ _ _ _ _ _ 8 "WoStatus" Hex Hin eq_refl)
      as (sc & en & r & Hsc & Hf & Hr & Hcs & _).
    exists (eval_ref en r). split; [exact Hf|].
    assert (Hge : eval_ref en r <> VNull
                  /\ forall z, eval_ref en r = VInt z -> (1 <= z)%Z).
    { assert (Hm : In status_at_least_1
                      (translation_present
                         :: filter_conditions e w (isoformat d)))
        by (destruct e, w; simpl; auto 10).
      destruct (Hcs _ Hm) as (rc & Hrc & Hh).
      simpl in Hrc. apply rbind_ok in Hrc as (r' & Hr' & Hrc).
      inversion Hrc; subst rc.
      destruct (candidates 0 sc "WoStatus") as [|r0 [|]] eqn:Hcand;
        try discriminate.
      inversion Hr'; subst r'.
      assert (r0 = r).
      { eapply same_column; [|exact Hr]. simpl. now rewrite Hcand. }
      subst r0.
      apply holds_cmp in Hh as (c & Hv & Hc). simpl in Hv.
      eapply int_le_value; eauto. }
    destruct Hge as [Hnn Hge].
    split; [|split; [exact Hnn|split; [exact Hge|]]].
    + intros H0. specialize (Hge 0%Z H0). lia.
    + intros ->.
      assert (Hm : In status_at_most_5
                      (translation_present
                         :: filter_conditions e false (isoformat d)))
        by (destruct e; simpl; auto 10).
      destruct (Hcs _ Hm) as (rc & Hrc & Hh).
      simpl in Hrc. apply rbind_ok in Hrc as (r' & Hr' & Hrc).
      apply rbind_ok in Hr' as (r0 & Hr0 & Hr').
      inversion Hr'; subst r'. inversion Hrc; subst rc.
      assert (r0 = r) by (eapply same_column; eauto). subst r0.
      apply holds_cmp in Hh as (c & Hv & Hc). simpl in Hv.
      destruct (value_le_int _ _ _ Hv Hc) as (y & Hy & Hle).
      exists y. split; [exact Hy|]. specialize (Hge y Hy). lia.
  - exists (fs_of three_terms), (mkLuteDatabase lute_path), true, true,
      today, [].
    eexists _, _, _, 6%Z. split; [vm_compute; reflexivity|].
    split; [right; right; left; reflexivity|].
    split; [reflexivity | lia].
Qed.

Lemma returned_status_bounds_witness :
  exists status,
    term_status uno = Some status
    /\ status <> VInt 0
    /\ status <> VNull
    /\ (forall z, status = VInt z -> (1 <= z)%Z)
    /\ (false = false -> exists z, status = VInt z /\ (1 <= z <= 5)%Z).
Proof.
  apply (proj1 returned_status_bounds (fs_of three_terms)
               (mkLuteDatabase lute_path) true false false today []
               [uno] [[VInt 1; VText "Spanish"]] uno).
  - vm_compute. reflexivity.
  - simpl. auto.
Defined.

(** C7. With [empty_translation] false every term returned by [connect]
    has a translation that is present and is not the empty string; the
    column [WoTranslation] of [words] being a TEXT column, it is a
    non-empty string. *)
Theorem returned_translation_nonempty :
  forall fs self parents_only include_WKI cutoff_date t terms languages term,
    fst (connect fs self parents_only false include_WKI cutoff_date t)
    = Ok (terms, languages) ->
    In term terms ->
    exists translation,
      term_translation term = Some translation
      /\ translation <> VNull
      /\ translation <> VText ""
      /\ ((forall db, fs (db_path self) = Db db ->
                      text_column db "words" "WoTranslation" = true) ->
          exists s, translation = VText s /\ s <> "").
Proof.
  intros fs self p w d t terms languages term Hc Hin.
  apply connect_returns in Hc
    as [[-> _]|(db & ids & al & Hfs & -> & Hex & _)]; [destruct Hin|].
  destruct (parents_only_term_field _ _ _ _ _ _ 1 "WoTranslation"
              Hex Hin eq_refl)
    as (sc & en & r & Hsc & Hf & Hr & Hcs & Hcol).
  assert (Hm : In translation_nonempty
                  (translation_present
                     :: filter_conditions false w (isoformat d)))
    by (destruct w; simpl; auto 10).
  destruct (Hcs _ Hm) as (rc & Hrc & Hh).
  cbn [translation_nonempty resolve_cond resolve_operand] in Hrc.
  apply rbind_ok in Hrc as (r' & Hr' & Hrc).
  apply rbind_ok in Hr' as (r0 & Hr0 & Hr').
  inversion Hr'; subst r'. inversion Hrc; subst rc.
  assert (r0 = r) by (eapply same_column; eauto). subst r0.
  apply holds_cmp in Hh as (c & Hv & Hne). cbn [eval_operand] in Hv.
  destruct (value_ne_text _ _ _ Hv Hne) as [Hnn Hnt].
  exists (eval_ref en r). split; [exact Hf|].
  split; [exact Hnn|]. split; [exact Hnt|].
  intros Htext. specialize (Htext db Hfs). unfold text_column in Htext.
  rewrite forallb_forall in Htext. specialize (Htext _ Hcol).
  destruct (eval_ref en r) as [|z|s]; [congruence | discriminate |].
  exists s. split; [reflexivity|]. intros ->. now apply Hnt.
Qed.

Lemma returned_translation_nonempty_witness :
  exists translation,
    term_translation uno = Some translation
    /\ translation <> VNull
    /\ translation <> VText ""
    /\ exists s, translation = VText s /\ s <> "".
Proof.
  destruct (returned_translation_nonempty (fs_of three_terms) lute
              true false today [] [uno] [[VInt 1; VText "Spanish"]] uno)
    as (tr & H1 & H2 & H3 & H4).
  - vm_compute. reflexivity.
  - simpl. auto.
  - exists tr. repeat split; try assumption.
    apply H4. intros db H. vm_compute in H. inversion H. reflexivity.
Defined.

(** C8 (the code at a failing input). When the terms statement raises,
    [connect] returns with the connection it opened still open: the trace
    has the opening and no closing. On the path without exception the
    connection is closed. *)
Theorem failed_statement_leaves_connection_open :
  let failed :=
    snd (connect (fs_of three_terms) lute false false false today []) in
  let succeeded :=
    snd (connect (fs_of three_terms) lute true false false today []) in
  count is_opened failed = 1
  /\ count is_closed failed = 0
  /\ open_connections failed = 1
  /\ open_connections succeeded = 0.
Proof. repeat split; vm_compute; reflexivity. Qed.

(** C9 (the code's two SELECT lists). The parents-only statement selects
    13 fields, the token count at position 10; the other statement selects
    12 fields, has no token count, and has the image source at position
    10. Run without the WHERE clause, the second SELECT yields tuples of
    12 fields. *)
Theorem select_lists_differ :
  forall empty_translation include_WKI cutoff_date,
    (exists q,
        prepare (query_text true empty_translation include_WKI cutoff_date)
        = Ok q
        /\ q_select q = SelCols select_parents_only)
    /\ (exists q,
          prepare (query_text false empty_translation include_WKI cutoff_date)
          = Ok q
          /\ q_select q = SelCols select_all_terms)
    /\ List.length select_parents_only = 13
    /\ List.length select_all_terms = 12
    /\ nth_error select_parents_only 10 = Some (QCol "w" "WoTokenCount")
    /\ nth_error select_all_terms 10 = Some (Col "WiSource")
    /\ ~ In "WoTokenCount" (map column_name select_all_terms)
    /\ (exists rows,
          execute three_terms (base_query false) = Ok rows
          /\ map (@List.length value) rows = [12; 12; 12]).
Proof.
  intros e w d.
  split; [eexists; split; [apply prepare_query_text | reflexivity]|].
  split; [eexists; split; [apply prepare_query_text | reflexivity]|].
  repeat (split; [reflexivity|]).
  split.
  - simpl. intros H.
    repeat (destruct H as [H|H]; [discriminate|]). exact H.
  - eexists. split; vm_compute; reflexivity.
Qed.

(** C10 (the code when every argument is omitted). The class body ran
    yesterday and the call happens today: the statement excludes empty
    translations and statuses above 5, but its cutoff is yesterday's
    date, the day the default was evaluated, not today's. *)
Theorem omitted_cutoff_is_definition_day :
  let defaults := def_build_sql_query yesterday in
  fst (call_build_sql_query defaults lute None None None None [])
  = Ok (query_text false false false yesterday)
  /\ where_conditions false false yesterday
     = [ "WoTranslation IS NOT NULL";
         "(wp_child.WpParentWoID IS NULL OR wp_parent.WpParentWoID IS NOT NULL)";
         "WoCreated >= " ++ dquote ++ "2024-05-16" ++ dquote;
         "WoTranslation <> ''";
         "WoStatus <= 5";
         "1 <= WoStatus" ]
  /\ isoformat today = "2024-05-17"
  /\ query_text false false false yesterday
     <> query_text false false false today.
Proof.
  repeat split; try reflexivity.
  intros H.
  assert (Hp : prepare (query_text false false false yesterday)
               = prepare (query_text false false false today))
    by now rewrite H.
  rewrite !prepare_query_text in Hp. vm_compute in Hp. discriminate.
Qed.

End Claims.
(* ===================================================================== *)
(** * Further properties of [connect] *)
(* ===================================================================== *)

Section Outcomes.

Import Py Sqlite Database Parsed Terms Traces Extraction.

Lemma py_in_list_set_eq x xs : py_in x (list_set xs) = py_in x xs.
Proof.
  destruct (py_in x xs) eqn:H.
  - apply py_in_list_set. now apply existsb_value_eqb.
  - destruct (py_in x (list_set xs)) eqn:H'; [|reflexivity].
    apply py_in_list_set in H'. apply existsb_value_eqb in H'.
    unfold py_in in H. congruence.
Qed.

(** The comprehension over the rows of [SELECT *], read on the stored
    rows. *)
Lemma pair_languages_rows used n rows languages :
  pair_languages used
    (map (fun rw => map (fun j => nth j rw VNull) (seq 0 n)) rows)
  = Ok languages ->
  languages
  = map language_pair
        (filter (fun rw => py_in (language_id rw) used) rows).
Proof.
  revert languages. induction rows as [|rw rows IH]; intros languages H;
    simpl in H.
  - now inversion H.
  - apply rbind_ok in H as (id & Hid & H).
    pose proof (star_index _ _ _ _ Hid) as ->.
    simpl. unfold language_id at 1.
    destruct (py_in (nth 0 rw VNull) used).
    + apply rbind_ok in H as (id' & Hid' & H).
      apply rbind_ok in H as (name & Hname & H).
      apply rbind_ok in H as (ls & Hls & H). inversion H; subst.
      apply star_index in Hid'. apply star_index in Hname. subst.
      simpl. now rewrite (IH _ Hls).
    + now apply IH.
Qed.

Lemma lg_used_nth terms id :
  (forall term, In term terms -> 3 <= List.length term) ->
  py_in id (map (fun term => nth 2 term VNull) terms) = lg_used terms id.
Proof.
  intros Hlen. unfold py_in, lg_used.
  induction terms as [|term terms IH]; simpl; [reflexivity|].
  rewrite IH by (intros x Hx; apply Hlen; now right).
  f_equal. unfold term_lg_id.
  assert (Hl : 3 <= List.length term) by (apply Hlen; now left).
  destruct term as [|a [|b [|c rest]]]; simpl in Hl; try lia. reflexivity.
Qed.

(** The languages [connect] returns are the rows of the store's languages
    table, in the order of the table, that some returned term has as its
    language, each cut to identifier and name. *)
Theorem languages_follow_table_order :
  forall fs self db parents_only empty_translation include_WKI cutoff_date
         t terms languages,
    fs (db_path self) = Db db ->
    fst (connect fs self parents_only empty_translation include_WKI
                 cutoff_date t) = Ok (terms, languages) ->
    languages
    = map language_pair
          (filter (fun lang => lg_used terms (language_id lang))
                  (language_rows db)).
Proof.
  intros fs self db p e w d t terms languages Hfs Hc.
  apply connect_returns in Hc
    as [[-> ->]|(db' & ids & al & Hfs' & -> & Hex & Hids & Hal & Hpl)].
  { induction (language_rows db) as [|rw rows IH]; simpl; auto. }
  rewrite Hfs in Hfs'. inversion Hfs'; subst db'. clear Hfs'.
  rewrite (lg_ids_of_terms _ _ _ _ _ _ Hex) in Hids.
  inversion Hids; subst ids. clear Hids.
  destruct (execute_languages _ _ Hal) as (tl & Htl & ->).
  apply pair_languages_rows in Hpl. subst languages.
  unfold language_rows. rewrite Htl. f_equal.
  apply filter_ext. intros rw. rewrite py_in_list_set_eq.
  apply lg_used_nth. intros term Hin.
  rewrite (parents_only_term_length _ _ _ _ _ _ Hex Hin). lia.
Qed.

Lemma languages_follow_table_order_witness :
  [[VInt 1; VText "Spanish"]; [VInt 2; VText "German"]]
  = map language_pair
        (filter (fun lang =>
                   lg_used [Scenario.uno; Scenario.dos; Scenario.drei]
                           (language_id lang))
                (language_rows Scenario.three_terms)).
Proof.
  apply (languages_follow_table_order
           (Scenario.fs_of Scenario.three_terms) Scenario.lute
           Scenario.three_terms true true true Scenario.today []).
  - reflexivity.
  - vm_compute. reflexivity.
Defined.

(** Every call ends in one of two ways. Either the [try] block came to
    its end: the trace is the opening, the two info entries, the closing
    and the count of what is returned, with no notice and no error entry.
    Or the call returns the empty pair with exactly one notice and one
    error entry and without closing anything. In both, at most one
    connection was opened. *)
Theorem connect_outcomes :
  forall fs self parents_only empty_translation include_WKI cutoff_date,
    let path := db_path self in
    let outcome :=
      connect fs self parents_only empty_translation include_WKI
              cutoff_date [] in
    (exists terms languages,
        outcome
        = (Ok (terms, languages),
           (opened_events path
              ++ retrieved_events path (List.length terms)
                                  (List.length languages))%list)
        /\ count is_show_info (snd outcome) = 0
        /\ count is_log_error (snd outcome) = 0
        /\ open_connections (snd outcome) = 0)
    \/ (fst outcome = Ok ([], [])
        /\ count is_show_info (snd outcome) = 1
        /\ count is_log_error (snd outcome) = 1
        /\ count is_closed (snd outcome) = 0
        /\ count is_opened (snd outcome) <= 1).
Proof.
  intros fs self p e w d path outcome. unfold outcome.
  rewrite connect_paths. cbv zeta. fold path.
  destruct (negb (endswith path "lute.db")); [failed_run|].
  destruct (fs path) as [| |db]; try (failed_run; fail).
  destruct (execute db (query_text p e w d)) as [ts|ex]; [|failed_run].
  destruct (lg_ids ts) as [ids|ex]; [|failed_run].
  destruct (execute db "SELECT * FROM languages") as [al|ex];
    [|failed_run].
  destruct (pair_languages (list_set ids) al) as [langs|ex];
    [|failed_run].
  left. exists ts, langs. simpl. auto.
Qed.

End Outcomes.

(* ===================================================================== *)
(** * The joined rows of the parents-only statement *)
(* ===================================================================== *)

Section JoinedRows.

Import Py Sqlite Database Parsed Terms Extraction.

Lemma nth_of_nth_error {A} (l : list (option A)) i :
  nth i l None = match nth_error l i with Some x => x | None => None end.
Proof.
  revert i. induction l as [|x l IH]; intros [|i]; simpl; auto.
Qed.

(** A qualified column, evaluated: the column of the table under that
    alias, in the row the joined row has for it. *)
Lemma eval_qcol sc a c r i t en :
  resolve_colref sc (QCol a c) = Ok r ->
  find_alias 0 sc a = Some (i, t) ->
  eval_ref en r = column_opt t c (nth i en None).
Proof.
  intros Hr Ha.
  destruct (resolve_qcol_at _ _ _ _ _ _ Hr Ha) as (j & Hj & ->).
  unfold eval_ref, column_opt, column. cbn [r_alias r_col].
  rewrite nth_of_nth_error.
  destruct (nth_error en i) as [[rw|]|]; try reflexivity.
  now rewrite Hj.
Qed.

(** An ON condition of the statement, evaluated. *)
Lemma holds_on_eq sc a c a' c' rc i t i' t' en :
  resolve_cond sc (on_eq a c a' c') = Ok rc ->
  find_alias 0 sc a = Some (i, t) ->
  find_alias 0 sc a' = Some (i', t') ->
  holds en rc
  = sql_eq (column_opt t c (nth i en None))
           (column_opt t' c' (nth i' en None)).
Proof.
  intros Hrc Ha Ha'.
  destruct (resolve_on_eq _ _ _ _ _ _ Hrc) as (r1 & r2 & Hr1 & Hr2 & ->).
  rewrite holds_eq_cols.
  now rewrite (eval_qcol _ _ _ _ _ _ en Hr1 Ha),
    (eval_qcol _ _ _ _ _ _ en Hr2 Ha').
Qed.

(** The rows the FROM clause of the parents-only statement produces: a
    word, an image of the word, a tag link of the image's word, the tag of
    that link, a link with the word as child, a link with the word as
    parent; each but the word possibly missing. *)
Lemma parents_only_joined_row db e w iso sc p en :
  bind_from db (parsed_query true e w iso) = Ok sc ->
  resolve sc (parsed_query true e w iso) = Ok p ->
  In en (from_rows p) ->
  exists tw twi twt tt tp word image taglink tag up down,
    lookup_table db "words" = Some tw
    /\ lookup_table db "wordimages" = Some twi
    /\ lookup_table db "wordtags" = Some twt
    /\ lookup_table db "tags" = Some tt
    /\ lookup_table db "wordparents" = Some tp
    /\ sc = [ ("w", tw); ("wi", twi); ("wt", twt); ("t", tt);
              ("wp_child", tp); ("wp_parent", tp) ]
    /\ en = [Some word; image; taglink; tag; up; down]
    /\ In word (t_rows tw)
    /\ partner twi (fun l => sql_eq (column tw "WoID" word)
                                    (column twi "WiWoID" l)) image
    /\ partner twt (fun l => sql_eq (column_opt twi "WiWoID" image)
                                    (column twt "WtWoID" l)) taglink
    /\ partner tt (fun l => sql_eq (column_opt twt "WtTgID" taglink)
                                   (column tt "TgID" l)) tag
    /\ partner tp (fun l => sql_eq (column tw "WoID" word)
                                   (column tp "WpWoID" l)) up
    /\ partner tp (fun l => sql_eq (column tw "WoID" word)
                                   (column tp "WpParentWoID" l)) down.
Proof.
  intros Hsc Hp Hen.
  destruct (bind_from_parents_only _ _ _ _ _ Hsc)
    as (tw & twi & twt & tt & tp & Hw & Hwi & Hwt & Ht & Hwp & ->).
  destruct (resolve_ok _ _ _ Hp) as (Hps & _ & _ & Hons).
  cbn [parsed_query q_joins joins_parents_only joins_all_terms app
       resolve_ons j_on] in Hons.
  apply rbind_ok in Hons as (on1 & Hon1 & Hons).
  apply rbind_ok in Hons as (ons & Hons & Hq). inversion Hq as [Hq1]. clear Hq.
  apply rbind_ok in Hons as (on2 & Hon2 & Hons).
  apply rbind_ok in Hons as (ons2 & Hons & Hq). inversion Hq; subst ons. clear Hq.
  apply rbind_ok in Hons as (on3 & Hon3 & Hons).
  apply rbind_ok in Hons as (ons3 & Hons & Hq). inversion Hq; subst ons2. clear Hq.
  apply rbind_ok in Hons as (on4 & Hon4 & Hons).
  apply rbind_ok in Hons as (ons4 & Hons & Hq). inversion Hq; subst ons3. clear Hq.
  apply rbind_ok in Hons as (on5 & Hon5 & Hons).
  apply rbind_ok in Hons as (ons5 & Hons & Hq). inversion Hq; subst ons4. clear Hq.
  simpl in Hons. inversion Hons; subst ons5. clear Hons.
  destruct (from_rows_head _ _ _ _ _ Hps Hen) as (word & rest & Hword & ->).
  unfold from_rows in Hen. rewrite Hps, <- Hq1 in Hen. cbn [map snd] in Hen.
  apply join_all_nth with (n := 1) in Hen as [Hlen Hpos];
    [ | intros x Hx; apply in_map_iff in Hx as (rw & <- & _); reflexivity
      | reflexivity ].
  cbn [List.length Nat.add] in Hlen.
  destruct rest as [|image [|taglink [|tag [|up [|down [|x rest]]]]]];
    simpl in Hlen; try lia.
  exists tw, twi, twt, tt, tp, word, image, taglink, tag, up, down.
  repeat (split; [first [assumption | reflexivity]|]).
  pose proof (Hpos 0 twi _ eq_refl eq_refl) as H1.
  pose proof (Hpos 1 twt _ eq_refl eq_refl) as H2.
  pose proof (Hpos 2 tt _ eq_refl eq_refl) as H3.
  pose proof (Hpos 3 tp _ eq_refl eq_refl) as H4.
  pose proof (Hpos 4 tp _ eq_refl eq_refl) as H5.
  clear Hpos.
  cbn [Nat.add nth_error firstn app] in H1, H2, H3, H4, H5.
  unfold partner.
  repeat split.
  - destruct image as [l|]; [destruct H1 as [Hl H1]; split; [exact Hl|] | intros l Hl; specialize (H1 l Hl)];
      now rewrite (holds_on_eq _ _ _ _ _ _ _ _ _ _ _ Hon1 eq_refl eq_refl) in H1.
  - destruct taglink as [l|]; [destruct H2 as [Hl H2]; split; [exact Hl|] | intros l Hl; specialize (H2 l Hl)];
      now rewrite (holds_on_eq _ _ _ _ _ _ _ _ _ _ _ Hon2 eq_refl eq_refl) in H2.
  - destruct tag as [l|]; [destruct H3 as [Hl H3]; split; [exact Hl|] | intros l Hl; specialize (H3 l Hl)];
      now rewrite (holds_on_eq _ _ _ _ _ _ _ _ _ _ _ Hon3 eq_refl eq_refl) in H3.
  - destruct up as [l|]; [destruct H4 as [Hl H4]; split; [exact Hl|] | intros l Hl; specialize (H4 l Hl)];
      now rewrite (holds_on_eq _ _ _ _ _ _ _ _ _ _ _ Hon4 eq_refl eq_refl) in H4.
  - destruct down as [l|]; [destruct H5 as [Hl H5]; split; [exact Hl|] | intros l Hl; specialize (H5 l Hl)];
      now rewrite (holds_on_eq _ _ _ _ _ _ _ _ _ _ _ Hon5 eq_refl eq_refl) in H5.
Qed.

End JoinedRows.

(* ===================================================================== *)
(** * Images and tags *)
(* ===================================================================== *)

Section ImagesAndTags.

Import Py Sqlite Database Parsed Terms Extraction.

Lemma sql_eq_null_l v : sql_eq VNull v = false.
Proof. reflexivity. Qed.

Lemma sql_eq_null_r v : sql_eq v VNull = false.
Proof. destruct v; reflexivity. Qed.

Lemma sql_eq_column_exists db tbl t col l v :
  lookup_table db tbl = Some t ->
  In l (t_rows t) ->
  sql_eq v (column t col l) = true ->
  existsb (sql_eq v) (column_values db tbl col) = true.
Proof.
  intros Ht Hl. unfold column.
  destruct (find_col (t_cols t) col) as [j|] eqn:Hj.
  - intros H. apply existsb_exists. exists (nth j l VNull).
    split; [eapply column_values_at; eauto | exact H].
  - now rewrite sql_eq_null_r.
Qed.

(** A field of a returned term, as a column of the joined row. *)
Lemma term_field_column sc q p en cs i a c k t :
  resolve sc q = Ok p ->
  q_select q = SelCols cs ->
  nth_error cs i = Some (QCol a c) ->
  find_alias 0 sc a = Some (k, t) ->
  nth_error (project p en) i = Some (column_opt t c (nth k en None)).
Proof.
  intros Hp Hs Hn Ha.
  destruct (row_field _ _ _ en _ _ _ Hp Hs Hn) as (r & Hr & ->).
  now rewrite (eval_qcol _ _ _ _ _ _ en Hr Ha).
Qed.

(** The tag of a term is found through the images of its word: a term
    whose word has no image carries no image source, no tag text and no
    tag comment, whatever tags the word has. *)
Theorem no_image_no_tag :
  forall fs self db parents_only empty_translation include_WKI cutoff_date
         t terms languages term,
    fs (db_path self) = Db db ->
    fst (connect fs self parents_only empty_translation include_WKI
                 cutoff_date t) = Ok (terms, languages) ->
    In term terms ->
    exists word_id,
      term_id term = Some word_id
      /\ (has_image db word_id = false ->
          term_image_source term = Some VNull
          /\ term_tag_text term = Some VNull
          /\ term_tag_comment term = Some VNull).
Proof.
  intros fs self db p e w d t terms languages term Hfs Hc Hin.
  apply connect_returns in Hc
    as [[-> _]|(db' & ids & al & Hfs' & -> & Hex & _)]; [destruct Hin|].
  rewrite Hfs in Hfs'. inversion Hfs'; subst db'. clear Hfs'.
  destruct (parents_only_term _ _ _ _ _ _ Hex Hin)
    as (sc & p & en & Hsc & Hp & Hen & Hk & ->).
  destruct (parents_only_joined_row _ _ _ _ _ _ _ Hsc Hp Hen)
    as (tw & twi & twt & tt & tp & word & image & taglink & tag & up & down
        & Hw & Hwi & Hwt & Ht & Hwp & -> & -> & Hword
        & Himage & Htaglink & Htag & _).
  exists (column tw "WoID" word). split.
  { unfold term_id.
    now rewrite (term_field_column _ _ _ _ _ 7 "w" "WoID" 0 tw
                   Hp eq_refl eq_refl eq_refl). }
  intros Hnone.
  assert (image = None) as ->.
  { destruct image as [l|]; [|reflexivity].
    destruct Himage as [Hl Heq].
    unfold has_image in Hnone.
    rewrite (sql_eq_column_exists _ _ _ _ _ _ Hwi Hl Heq) in Hnone.
    discriminate. }
  assert (taglink = None) as ->.
  { destruct taglink as [l|]; [|reflexivity].
    destruct Htaglink as [_ Heq]. discriminate. }
  assert (tag = None) as ->.
  { destruct tag as [l|]; [|reflexivity].
    destruct Htag as [_ Heq]. discriminate. }
  unfold term_image_source, term_tag_text, term_tag_comment.
  rewrite (term_field_column _ _ _ _ _ 11 "wi" "WiSource" 1 twi
             Hp eq_refl eq_refl eq_refl).
  rewrite (term_field_column _ _ _ _ _ 4 "t" "TgText" 3 tt
             Hp eq_refl eq_refl eq_refl).
  rewrite (term_field_column _ _ _ _ _ 12 "t" "TgComment" 3 tt
             Hp eq_refl eq_refl eq_refl).
  auto.
Qed.

Lemma no_image_no_tag_witness :
  term_image_source Scenario.uno = Some VNull
  /\ term_tag_text Scenario.uno = Some VNull
  /\ term_tag_comment Scenario.uno = Some VNull.
Proof.
  destruct (no_image_no_tag
              (Scenario.fs_of (Tagged.store [])) Scenario.lute
              (Tagged.store []) true false false Scenario.today []
              [Scenario.uno] [[VInt 1; VText "Spanish"]] Scenario.uno)
    as (word_id & Hid & Hnull).
  - reflexivity.
  - vm_compute. reflexivity.
  - simpl. auto.
  - apply Hnull. inversion Hid. reflexivity.
Defined.

End ImagesAndTags.

(* ===================================================================== *)
(** * The WHERE clause, read on the rows of [words] *)
(* ===================================================================== *)

Section QualifyingWords.

Import Py Sqlite Database Parsed Terms Traces Extraction.

Lemma holds_and_intro en c1 c2 :
  holds en c1 = true -> holds en c2 = true -> holds en (RAnd c1 c2) = true.
Proof.
  unfold holds. simpl.
  destruct (eval_cond en c1) as [[|]|]; try discriminate.
  destruct (eval_cond en c2) as [[|]|]; try discriminate. reflexivity.
Qed.

(** A conjunction is true where each of its conjuncts is. *)
Lemma holds_conjuncts_intro sc c rc en :
  resolve_cond sc c = Ok rc ->
  (forall c' rc', In c' (conjuncts c) ->
                  resolve_cond sc c' = Ok rc' -> holds en rc' = true) ->
  holds en rc = true.
Proof.
  revert rc. induction c as [o|o|op x y|c1 IH1 c2 IH2|c1 IH1 c2 IH2];
    intros rc Hr Hall;
    try (apply (Hall _ _ (or_introl eq_refl) Hr); fail).
  simpl in Hr. apply rbind_ok in Hr as (r1 & Hr1 & Hr).
  apply rbind_ok in Hr as (r2 & Hr2 & Hr). inversion Hr; subst.
  apply holds_and_intro.
  - apply (IH1 _ Hr1). intros c' rc' Hin. apply Hall. simpl.
    apply in_or_app. now left.
  - apply (IH2 _ Hr2). intros c' rc' Hin. apply Hall. simpl.
    apply in_or_app. now right.
Qed.

Lemma holds_cmp_true en op a b :
  holds en (RCmp op a b)
  = cmp_true op (eval_operand en a) (eval_operand en b).
Proof.
  unfold holds, cmp_true. simpl.
  destruct (value_compare (eval_operand en a) (eval_operand en b)) as [c|];
    simpl; [|reflexivity].
  destruct (cmp_holds op c); reflexivity.
Qed.

Lemma join_step_covers t on es e :
  In e es -> exists b, In (e ++ [b])%list (join_step t on es).
Proof.
  intros He. unfold join_step.
  destruct (filter (fun rw => holds (e ++ [Some rw])%list on) (t_rows t))
    as [|r0 partners] eqn:Hf.
  - exists None. apply in_flat_map. exists e. rewrite Hf. simpl. auto.
  - exists (Some r0). apply in_flat_map. exists e. rewrite Hf.
    split; [exact He | now left].
Qed.

Lemma join_all_covers ts ons es e :
  In e es -> exists rest, In (e ++ rest)%list (join_all ts ons es).
Proof.
  revert ons es e. induction ts as [|t ts IH]; intros ons es e He.
  - exists []. rewrite app_nil_r. exact He.
  - destruct ons as [|on ons].
    + exists []. rewrite app_nil_r. exact He.
    + destruct (join_step_covers t on es e He) as [b Hb].
      destruct (IH ons _ _ Hb) as [rest Hrest].
      exists (b :: rest). simpl. now rewrite <- app_assoc in Hrest.
Qed.

(** Every row of the first table starts some joined row. *)
Lemma from_rows_covers p a t joined word :
  p_scope p = (a, t) :: joined ->
  In word (t_rows t) ->
  exists rest, In (Some word :: rest) (from_rows p).
Proof.
  intros Hs Hw. unfold from_rows. rewrite Hs.
  destruct (join_all_covers (map snd joined) (p_ons p)
              (map (fun rw => [Some rw]) (t_rows t)) [Some word])
    as [rest Hrest].
  - now apply (in_map (fun rw => [Some rw])).
  - exists rest. exact Hrest.
Qed.

Lemma in_run p e :
  In e (from_rows p) -> keeps p e = true -> In (project p e) (run p).
Proof.
  intros He Hk. unfold run. apply in_map. apply filter_In. auto.
Qed.

Lemma qualifies_parts db e w iso word :
  qualifies db e w iso word = true
  <-> is_null (word_field db "WoTranslation" word) = false
      /\ (has_parent_link db (word_field db "WoID" word) = false
          \/ is_parent db (word_field db "WoID" word) = true)
      /\ cmp_true OpGe (word_field db "WoCreated" word) (VText iso) = true
      /\ (e = false ->
          cmp_true OpNe (word_field db "WoTranslation" word) (VText "")
          = true)
      /\ (w = false ->
          cmp_true OpLe (word_field db "WoStatus" word) (VInt 5) = true)
      /\ cmp_true OpLe (VInt 1) (word_field db "WoStatus" word) = true.
Proof.
  unfold qualifies.
  rewrite !andb_true_iff, !orb_true_iff, !negb_true_iff.
  split.
  - intros (((((H1 & H2) & H3) & H4) & H5) & H6).
    repeat split; auto.
    + intros ->. destruct H4; [discriminate | assumption].
    + intros ->. destruct H5; [discriminate | assumption].
  - intros (H1 & H2 & H3 & H4 & H5 & H6).
    repeat split; auto.
    + destruct e; [now left | right; now apply H4].
    + destruct w; [now left | right; now apply H5].
Qed.

(** On a joined row of the parents-only statement the WHERE clause is
    true exactly when the word of the row qualifies. *)
Lemma keeps_iff_qualifies db e w iso sc p word rest :
  bind_from db (parsed_query true e w iso) = Ok sc ->
  resolve sc (parsed_query true e w iso) = Ok p ->
  no_null_column db "wordparents" "WpParentWoID" = true ->
  no_column_named db iso = true ->
  In (Some word :: rest) (from_rows p) ->
  keeps p (Some word :: rest) = true <-> qualifies db e w iso word = true.
Proof.
  intros Hsc Hp Hnn Hno Hen.
  set (en := Some word :: rest) in *.
  pose proof (bind_from_parents_only _ _ _ _ _ Hsc)
    as (tw & twi & twt & tt & tp & Hw & Hwi & Hwt & Ht & Hwp & Hs).
  destruct (resolve_ok _ _ _ Hp) as (_ & Hsel & Hwhere & _).
  cbn [parsed_query q_select q_where resolve_select resolve_where]
    in Hsel, Hwhere.
  apply rbind_ok in Hwhere as (rc0 & Hrc0 & Hpw). inversion Hpw as [Hpw'].
  unfold keeps. rewrite <- Hpw'. clear Hpw Hpw'.
  (* a column of [words], by qualified or unqualified name *)
  assert (Hq : forall col r,
             In (QCol "w" col) select_parents_only ->
             resolve_colref sc (QCol "w" col) = Ok r ->
             eval_ref en r = word_field db col word).
  { intros col r _ Hr. subst sc.
    rewrite (eval_qcol _ _ _ _ _ _ en Hr eq_refl).
    unfold word_field. now rewrite Hw. }
  assert (Hu : forall col r,
             In (QCol "w" col) select_parents_only ->
             resolve_colref sc (Col col) = Ok r ->
             eval_ref en r = word_field db col word).
  { intros col r Hin Hr.
    destruct (In_nth_error _ _ Hin) as [i Hi].
    destruct (resolve_cols_nth _ _ _ _ _ Hsel Hi) as (r' & _ & Hr').
    rewrite (same_column _ _ _ _ _ Hr Hr'). now apply Hq. }
  assert (Hlit : resolve_operand sc (ODq iso) = Ok (RLit (VText iso))).
  { subst sc. cbn [resolve_operand candidates snd].
    now rewrite (no_column_named_at _ _ _ _ Hno Hw),
      (no_column_named_at _ _ _ _ Hno Hwi),
      (no_column_named_at _ _ _ _ Hno Hwt),
      (no_column_named_at _ _ _ _ Hno Ht),
      (no_column_named_at _ _ _ _ Hno Hwp). }
  assert (A1 : forall rc, resolve_cond sc translation_present = Ok rc ->
             holds en rc
             = negb (is_null (word_field db "WoTranslation" word))).
  { intros rc Hrc.
    cbn [translation_present resolve_cond resolve_operand] in Hrc.
    apply rbind_ok in Hrc as (o & Ho & Hrc). inversion Hrc; subst rc.
    apply rbind_ok in Ho as (r & Hr & Ho). inversion Ho; subst o.
    unfold holds. cbn [eval_cond eval_operand].
    rewrite (Hu "WoTranslation" _ ltac:(simpl; auto 15) Hr).
    now destruct (is_null _). }
  assert (A2 : forall rc, resolve_cond sc parent_chain = Ok rc ->
             holds en rc = true
             <-> has_parent_link db (word_field db "WoID" word) = false
                 \/ is_parent db (word_field db "WoID" word) = true).
  { intros rc Hrc.
    destruct (parent_chain_meaning _ _ _ _ _ _ _ _ Hsc Hp Hrc Hnn Hen)
      as (r & Hr & Hiff).
    now rewrite (Hq "WoID" _ ltac:(simpl; auto 15) Hr) in Hiff. }
  assert (A3 : forall rc, resolve_cond sc (created_since iso) = Ok rc ->
             holds en rc
             = cmp_true OpGe (word_field db "WoCreated" word) (VText iso)).
  { intros rc Hrc. unfold created_since in Hrc.
    cbn [resolve_cond] in Hrc. rewrite Hlit in Hrc.
    apply rbind_ok in Hrc as (o & Ho & Hrc). cbn [rbind] in Hrc.
    inversion Hrc; subst rc.
    cbn [resolve_operand] in Ho.
    apply rbind_ok in Ho as (r & Hr & Ho). inversion Ho; subst o.
    rewrite holds_cmp_true. cbn [eval_operand].
    now rewrite (Hu "WoCreated" _ ltac:(simpl; auto 15) Hr). }
  assert (A4 : forall rc, resolve_cond sc translation_nonempty = Ok rc ->
             holds en rc
             = cmp_true OpNe (word_field db "WoTranslation" word)
                        (VText "")).
  { intros rc Hrc.
    cbn [translation_nonempty resolve_cond resolve_operand] in Hrc.
    apply rbind_ok in Hrc as (o & Ho & Hrc). cbn [rbind] in Hrc.
    inversion Hrc; subst rc.
    apply rbind_ok in Ho as (r & Hr & Ho). inversion Ho; subst o.
    rewrite holds_cmp_true. cbn [eval_operand].
    now rewrite (Hu "WoTranslation" _ ltac:(simpl; auto 15) Hr). }
  assert (A5 : forall rc, resolve_cond sc status_at_most_5 = Ok rc ->
             holds en rc
             = cmp_true OpLe (word_field db "WoStatus" word) (VInt 5)).
  { intros rc Hrc.
    cbn [status_at_most_5 resolve_cond resolve_operand] in Hrc.
    apply rbind_ok in Hrc as (o & Ho & Hrc). cbn [rbind] in Hrc.
    inversion Hrc; subst rc.
    apply rbind_ok in Ho as (r & Hr & Ho). inversion Ho; subst o.
    rewrite holds_cmp_true. cbn [eval_operand].
    now rewrite (Hu "WoStatus" _ ltac:(simpl; auto 15) Hr). }
  assert (A6 : forall rc, resolve_cond sc status_at_least_1 = Ok rc ->
             holds en rc
             = cmp_true OpLe (VInt 1) (word_field db "WoStatus" word)).
  { intros rc Hrc.
    cbn [status_at_least_1 resolve_cond resolve_operand rbind] in Hrc.
    apply rbind_ok in Hrc as (o & Ho & Hrc). inversion Hrc; subst rc.
    apply rbind_ok in Ho as (r & Hr & Ho). inversion Ho; subst o.
    rewrite holds_cmp_true. cbn [eval_operand].
    now rewrite (Hu "WoStatus" _ ltac:(simpl; auto 15) Hr). }
  rewrite qualifies_parts.
  split.
  - intros Hh.
    pose proof (holds_conjunct _ _ _ en Hrc0 Hh) as Hall.
    rewrite conjuncts_filter in Hall.
    assert (H1 : exists rc, resolve_cond sc translation_present = Ok rc
                            /\ holds en rc = true)
      by (apply Hall; simpl; auto).
    assert (H2 : exists rc, resolve_cond sc parent_chain = Ok rc
                            /\ holds en rc = true)
      by (apply Hall; simpl; auto).
    assert (H3 : exists rc, resolve_cond sc (created_since iso) = Ok rc
                            /\ holds en rc = true)
      by (apply Hall; simpl; auto).
    assert (H6 : exists rc, resolve_cond sc status_at_least_1 = Ok rc
                            /\ holds en rc = true)
      by (apply Hall; destruct e, w; simpl; auto 10).
    destruct H1 as (rc1 & Hr1 & Hh1), H2 as (rc2 & Hr2 & Hh2),
      H3 as (rc3 & Hr3 & Hh3), H6 as (rc6 & Hr6 & Hh6).
    rewrite (A1 _ Hr1) in Hh1. apply negb_true_iff in Hh1.
    apply (A2 _ Hr2) in Hh2. rewrite (A3 _ Hr3) in Hh3.
    rewrite (A6 _ Hr6) in Hh6.
    repeat split; auto.
    + intros ->.
      destruct (Hall translation_nonempty) as (rc & Hr & Hhr);
        [destruct w; simpl; auto 10|].
      now rewrite (A4 _ Hr) in Hhr.
    + intros ->.
      destruct (Hall status_at_most_5) as (rc & Hr & Hhr);
        [destruct e; simpl; auto 10|].
      now rewrite (A5 _ Hr) in Hhr.
  - intros (H1 & H2 & H3 & H4 & H5 & H6).
    apply (holds_conjuncts_intro _ _ _ en Hrc0).
    rewrite conjuncts_filter. intros c' rc' Hin Hr.
    destruct Hin as [<-|Hin]; [rewrite (A1 _ Hr), H1; reflexivity|].
    unfold filter_conditions in Hin.
    apply in_app_or in Hin as [Hin|Hin].
    { destruct Hin as [<-|[<-|[]]].
      - now apply (A2 _ Hr).
      - now rewrite (A3 _ Hr). }
    apply in_app_or in Hin as [Hin|Hin].
    { destruct e; simpl in Hin; [destruct Hin|].
      destruct Hin as [<-|[]]. rewrite (A4 _ Hr). now apply H4. }
    apply in_app_or in Hin as [Hin|Hin].
    { destruct w; simpl in Hin; [destruct Hin|].
      destruct Hin as [<-|[]]. rewrite (A5 _ Hr). now apply H5. }
    destruct Hin as [<-|[]]. now rewrite (A6 _ Hr).
Qed.

(** A call that logged no error ran its terms statement to the end. *)
Lemma clean_run_executed fs self p e w d terms languages tr :
  connect fs self p e w d [] = (Ok (terms, languages), tr) ->
  count is_log_error tr = 0 ->
  exists db,
    fs (db_path self) = Db db
    /\ execute db (query_text p e w d) = Ok terms.
Proof.
  rewrite connect_paths. cbv zeta.
  destruct (negb (endswith (db_path self) "lute.db")); [logged_error|].
  destruct (fs (db_path self)) as [| |db] eqn:Hfs;
    try (logged_error; fail).
  destruct (execute db (query_text p e w d)) as [ts|ex] eqn:Hex;
    [|logged_error].
  destruct (lg_ids ts) as [ids|ex]; [|logged_error].
  destruct (execute db "SELECT * FROM languages") as [al|ex];
    [|logged_error].
  destruct (pair_languages (list_set ids) al) as [langs|ex];
    [|logged_error].
  intros H _. inversion H; subst. eauto.
Qed.

(** The terms of the parents-only statement are the words that
    qualify. *)
Lemma statement_returns_qualifying_words db e w d terms :
  no_null_column db "wordparents" "WpParentWoID" = true ->
  no_column_named db (isoformat d) = true ->
  execute db (query_text true e w d) = Ok terms ->
  (forall term, In term terms ->
     exists word,
       In word (words_rows db)
       /\ qualifies db e w (isoformat d) word = true
       /\ term_of_word db word term)
  /\ (forall word,
        In word (words_rows db) ->
        qualifies db e w (isoformat d) word = true ->
        exists term, In term terms /\ term_of_word db word term).
Proof.
  intros Hnn Hno Hex.
  assert (Hfields : forall sc p word rest,
             bind_from db (parsed_query true e w (isoformat d)) = Ok sc ->
             resolve sc (parsed_query true e w (isoformat d)) = Ok p ->
             term_of_word db word (project p (Some word :: rest))).
  { intros sc p word rest Hsc Hp i col Hi.
    destruct (bind_from_parents_only _ _ _ _ _ Hsc)
      as (tw & twi & twt & tt & tp & Hw & _ & _ & _ & _ & ->).
    rewrite (term_field_column _ _ _ _ _ i "w" col 0 tw
               Hp eq_refl Hi eq_refl).
    unfold word_field. now rewrite Hw. }
  split.
  - intros term Hin.
    destruct (parents_only_term _ _ _ _ _ _ Hex Hin)
      as (sc & p & en & Hsc & Hp & Hen & Hk & ->).
    destruct (bind_from_parents_only _ _ _ _ _ Hsc)
      as (tw & twi & twt & tt & tp & Hw & _ & _ & _ & _ & Hs).
    destruct (resolve_ok _ _ _ Hp) as (Hps & _).
    rewrite Hs in Hps.
    destruct (from_rows_head _ _ _ _ _ Hps Hen) as (word & rest & Hword & ->).
    exists word. split; [unfold words_rows; now rewrite Hw|].
    split; [|now apply (Hfields sc)].
    now apply (keeps_iff_qualifies _ _ _ _ _ _ _ _ Hsc Hp Hnn Hno Hen).
  - intros word Hword Hq.
    apply execute_ok in Hex as (q & sc & p & Hq' & Hsc & Hp & ->).
    rewrite prepare_query_text in Hq'. inversion Hq'; subst q. clear Hq'.
    destruct (bind_from_parents_only _ _ _ _ _ Hsc)
      as (tw & twi & twt & tt & tp & Hw & _ & _ & _ & _ & Hs).
    destruct (resolve_ok _ _ _ Hp) as (Hps & _).
    rewrite Hs in Hps.
    unfold words_rows in Hword. rewrite Hw in Hword.
    destruct (from_rows_covers _ _ _ _ _ Hps Hword) as [rest Hen].
    exists (project p (Some word :: rest)). split.
    + apply in_run; [exact Hen|].
      now apply (keeps_iff_qualifies _ _ _ _ _ _ _ _ Hsc Hp Hnn Hno Hen).
    + now apply (Hfields sc).
Qed.

(** A call of [connect] with [parents_only] that logs no error returns
    the words of the store that qualify, and only those: each returned
    term carries the fields of a qualifying row of [words], and each
    qualifying row is carried by a returned term. The parent column of
    [wordparents] holds no NULL and no column is named like the cutoff
    date. *)
Theorem returned_terms_are_the_qualifying_words :
  forall fs self db empty_translation include_WKI cutoff_date
         terms languages trace,
    fs (db_path self) = Db db ->
    no_null_column db "wordparents" "WpParentWoID" = true ->
    no_column_named db (isoformat cutoff_date) = true ->
    connect fs self true empty_translation include_WKI cutoff_date []
    = (Ok (terms, languages), trace) ->
    count is_log_error trace = 0 ->
    (forall term, In term terms ->
       exists word,
         In word (words_rows db)
         /\ qualifies db empty_translation include_WKI
                      (isoformat cutoff_date) word = true
         /\ term_of_word db word term)
    /\ (forall word,
          In word (words_rows db) ->
          qualifies db empty_translation include_WKI
                    (isoformat cutoff_date) word = true ->
          exists term, In term terms /\ term_of_word db word term).
Proof.
  intros fs self db e w d terms languages tr Hfs Hnn Hno Hc Hlog.
  destruct (clean_run_executed _ _ _ _ _ _ _ _ _ Hc Hlog)
    as (db' & Hfs' & Hex).
  rewrite Hfs in Hfs'. inversion Hfs'; subst db'.
  now apply statement_returns_qualifying_words.
Qed.

Lemma returned_terms_are_the_qualifying_words_witness :
  (forall term, In term [Scenario.correr; Scenario.currere] ->
     exists word,
       In word (words_rows Scenario.family)
       /\ qualifies Scenario.family false false
                    (isoformat Scenario.today) word = true
       /\ term_of_word Scenario.family word term)
  /\ (forall word,
        In word (words_rows Scenario.family) ->
        qualifies Scenario.family false false
                  (isoformat Scenario.today) word = true ->
        exists term,
          In term [Scenario.correr; Scenario.currere]
          /\ term_of_word Scenario.family word term).
Proof.
  apply (returned_terms_are_the_qualifying_words
           (Scenario.fs_of Scenario.family) Scenario.lute Scenario.family
           false false Scenario.today
           [Scenario.correr; Scenario.currere]
           [[VInt 1; VText "Spanish"]]
           (opened_events Scenario.lute_path
              ++ retrieved_events Scenario.lute_path 2 1)%list).
  - reflexivity.
  - reflexivity.
  - reflexivity.
  - vm_compute. reflexivity.
  - reflexivity.
Defined.

End QualifyingWords.

(* ===================================================================== *)
(** * The cutoff date *)
(* ===================================================================== *)

Section CutoffDate.

Import Py Sqlite Database Parsed Terms Extraction Calendar.

Lemma digit_compare x y :
  Ascii.compare (digit x) (digit y) = Nat.compare (x mod 10) (y mod 10).
Proof.
  unfold digit.
  pose proof (Nat.mod_upper_bound x 10 ltac:(discriminate)) as Hx.
  pose proof (Nat.mod_upper_bound y 10 ltac:(discriminate)) as Hy.
  generalize dependent (x mod 10). intros a Ha.
  generalize dependent (y mod 10). intros b Hb.
  do 10 (destruct a as [|a];
         [do 10 (destruct b as [|b]; [reflexivity|]); lia|]).
  lia.
Qed.

(** Comparing by a leading part and a last digit is comparing the
    numbers. *)
Lemma lex_digits q1 q2 r1 r2 n1 n2 k :
  r1 < 10 -> r2 < 10 ->
  n1 = 10 * q1 + r1 -> n2 = 10 * q2 + r2 ->
  lex (q1 ?= q2)%nat (lex (r1 ?= r2)%nat k) = lex (n1 ?= n2)%nat k.
Proof.
  intros H1 H2 -> ->.
  destruct (Nat.compare_spec q1 q2), (Nat.compare_spec r1 r2),
    (Nat.compare_spec (10 * q1 + r1) (10 * q2 + r2));
    simpl; try reflexivity; lia.
Qed.

Lemma split_last_digit n : n = 10 * (n / 10) + n mod 10.
Proof. apply Nat.div_mod_eq. Qed.

Lemma last_digit_bound n : n mod 10 < 10.
Proof. apply Nat.mod_upper_bound. discriminate. Qed.

Lemma two_digits a b k :
  a < 100 -> b < 100 ->
  lex ((a / 10) mod 10 ?= (b / 10) mod 10)%nat
      (lex (a mod 10 ?= b mod 10)%nat k)
  = lex (a ?= b)%nat k.
Proof.
  intros Ha Hb.
  rewrite (Nat.mod_small (a / 10) 10), (Nat.mod_small (b / 10) 10)
    by (apply Nat.Div0.div_lt_upper_bound; assumption).
  apply lex_digits; auto using last_digit_bound, split_last_digit.
Qed.

Lemma four_digits a b k :
  a < 1000 * 10 -> b < 1000 * 10 ->
  lex ((a / 1000) mod 10 ?= (b / 1000) mod 10)%nat
      (lex ((a / 100) mod 10 ?= (b / 100) mod 10)%nat
           (lex ((a / 10) mod 10 ?= (b / 10) mod 10)%nat
                (lex (a mod 10 ?= b mod 10)%nat k)))
  = lex (a ?= b)%nat k.
Proof.
  intros Ha Hb.
  assert (H100 : forall n, n / 100 = n / 10 / 10)
    by (intros n; now rewrite Nat.Div0.div_div).
  assert (H1000 : forall n, n / 1000 = n / 100 / 10)
    by (intros n; now rewrite Nat.Div0.div_div).
  rewrite (Nat.mod_small (a / 1000) 10), (Nat.mod_small (b / 1000) 10)
    by (apply Nat.Div0.div_lt_upper_bound; assumption).
  rewrite (lex_digits (a / 1000) (b / 1000) _ _ (a / 100) (b / 100))
    by (auto using last_digit_bound;
        rewrite H1000; apply split_last_digit).
  rewrite (lex_digits (a / 100) (b / 100) _ _ (a / 10) (b / 10))
    by (auto using last_digit_bound;
        rewrite H100; apply split_last_digit).
  apply lex_digits; auto using last_digit_bound, split_last_digit.
Qed.

Lemma compare_cons c1 s1 c2 s2 :
  String.compare (String c1 s1) (String c2 s2)
  = lex (Ascii.compare c1 c2) (String.compare s1 s2).
Proof. simpl. destruct (Ascii.compare c1 c2); reflexivity. Qed.

Lemma isoformat_chars d s :
  isoformat d ++ s
  = String (digit (year d / 1000)) (String (digit (year d / 100))
      (String (digit (year d / 10)) (String (digit (year d))
        (String "-" (String (digit (month d / 10)) (String (digit (month d))
          (String "-" (String (digit (day d / 10))
            (String (digit (day d)) s))))))))).
Proof. reflexivity. Qed.

Lemma valid_date_bounds d :
  valid_date d = true ->
  year d < 1000 * 10 /\ month d < 100 /\ day d < 100.
Proof.
  unfold valid_date. rewrite !andb_true_iff, !Nat.leb_le, Nat.ltb_lt. lia.
Qed.

Lemma lex_assoc a b c : lex (lex a b) c = lex a (lex b c).
Proof. destruct a; reflexivity. Qed.

(** Text comparison of two timestamps that begin with ISO dates is the
    comparison of the dates, then of what follows them. *)
Lemma isoformat_compare a b s t :
  valid_date a = true -> valid_date b = true ->
  String.compare (isoformat a ++ s) (isoformat b ++ t)
  = lex (date_compare a b) (String.compare s t).
Proof.
  intros Ha Hb.
  apply valid_date_bounds in Ha as (Hya & Hma & Hda).
  apply valid_date_bounds in Hb as (Hyb & Hmb & Hdb).
  rewrite !isoformat_chars. rewrite !compare_cons, !digit_compare.
  change (Ascii.compare "-" "-") with Eq. cbn [lex].
  rewrite four_digits, two_digits, two_digits by assumption.
  unfold date_compare. now rewrite !lex_assoc.
Qed.

(** The date condition of the statement, on a timestamp that begins with
    the ISO form of a day, holds exactly when that day is the cutoff day
    or a later one, whatever the time of day. *)
Theorem cutoff_follows_the_calendar :
  forall created cutoff_date time,
    valid_date created = true ->
    valid_date cutoff_date = true ->
    cmp_true OpGe (VText (isoformat created ++ time))
             (VText (isoformat cutoff_date)) = true
    <-> date_compare created cutoff_date <> Lt.
Proof.
  intros c d time Hc Hd. unfold cmp_true. cbn [value_compare].
  rewrite <- (append_empty_r (isoformat d)).
  rewrite (isoformat_compare c d time "" Hc Hd).
  destruct (date_compare c d); cbn [lex cmp_holds].
  - destruct time; simpl; split; intros; congruence.
  - split; intros; congruence.
  - split; intros; congruence.
Qed.

Lemma cutoff_follows_the_calendar_witness :
  cmp_true OpGe (VText (isoformat Scenario.today ++ " 09:30:00"))
           (VText (isoformat Scenario.today)) = true
  /\ cmp_true OpGe (VText (isoformat Scenario.yesterday ++ " 23:59:59"))
              (VText (isoformat Scenario.today)) <> true.
Proof.
  split.
  - apply (proj2 (cutoff_follows_the_calendar Scenario.today Scenario.today
                    " 09:30:00" eq_refl eq_refl)).
    discriminate.
  - intros H.
    apply (proj1 (cutoff_follows_the_calendar Scenario.yesterday
                    Scenario.today " 23:59:59" eq_refl eq_refl)) in H.
    now apply H.
Defined.

(** No term [connect] returns was stamped on a day before the cutoff
    date. *)
Theorem returned_terms_are_not_older_than_cutoff :
  forall fs self db parents_only empty_translation include_WKI cutoff_date
         t terms languages term created time,
    fs (db_path self) = Db db ->
    no_column_named db (isoformat cutoff_date) = true ->
    valid_date cutoff_date = true ->
    valid_date created = true ->
    fst (connect fs self parents_only empty_translation include_WKI
                 cutoff_date t) = Ok (terms, languages) ->
    In term terms ->
    term_created term = Some (VText (isoformat created ++ time)) ->
    date_compare created cutoff_date <> Lt.
Proof.
  intros fs self db p e w d t terms languages term c time
         Hfs Hno Hd Hc Hco Hin Hcr.
  apply connect_returns in Hco
    as [[-> _]|(db' & ids & al & Hfs' & -> & Hex & _)]; [destruct Hin|].
  rewrite Hfs in Hfs'. inversion Hfs'; subst db'. clear Hfs'.
  destruct (returned_term_created _ _ _ _ _ _ Hno Hex Hin)
    as (v & cmp & Hv & Hcmp & Hne).
  assert (Hveq : v = VText (isoformat c ++ time)) by congruence.
  subst v.
  cbn [value_compare] in Hcmp.
  rewrite <- (append_empty_r (isoformat d)) in Hcmp.
  rewrite (isoformat_compare c d time "" Hc Hd) in Hcmp.
  intros Hlt. rewrite Hlt in Hcmp. cbn [lex] in Hcmp. congruence.
Qed.

Lemma returned_terms_are_not_older_than_cutoff_witness :
  date_compare Scenario.today Scenario.today <> Lt.
Proof.
  apply (returned_terms_are_not_older_than_cutoff
           (Scenario.fs_of Scenario.three_terms) Scenario.lute
           Scenario.three_terms true false false Scenario.today []
           [Scenario.uno] [[VInt 1; VText "Spanish"]] Scenario.uno
           Scenario.today " 09:30:00").
  - reflexivity.
  - reflexivity.
  - reflexivity.
  - reflexivity.
  - vm_compute. reflexivity.
  - simpl. auto.
  - reflexivity.
Defined.

End CutoffDate.

(* ===================================================================== *)
(** * The file name gate *)
(* ===================================================================== *)

Section FileNameGate.

Import Py Sqlite Database Traces.

Lemma length_append (a b : string) :
  String.length (a ++ b) = String.length a + String.length b.
Proof. induction a as [|c a IH]; simpl; [reflexivity | now rewrite IH]. Qed.

Lemma substring_all (s : string) : substring 0 (String.length s) s = s.
Proof. induction s as [|c s IH]; simpl; [reflexivity | now rewrite IH]. Qed.

Lemma substring_skip (a b : string) n :
  substring (String.length a) n (a ++ b) = substring 0 n b.
Proof. induction a as [|c a IH]; simpl; [reflexivity | exact IH]. Qed.

Lemma substring_split (s : string) n m :
  n + m = String.length s ->
  s = substring 0 n s ++ substring n m s.
Proof.
  revert s. induction n as [|n IH]; intros s H.
  - simpl in H. subst m. rewrite substring_all.
    destruct s; reflexivity.
  - destruct s as [|c s]; simpl in H; [discriminate|].
    simpl. f_equal. apply IH. lia.
Qed.

(** [endswith] is true of the strings that are the suffix with something
    before it. *)
Lemma endswith_iff s suffix :
  endswith s suffix = true <-> exists before, s = before ++ suffix.
Proof.
  unfold endswith. rewrite andb_true_iff, Nat.leb_le, String.eqb_eq.
  split.
  - intros [Hle Hsub].
    exists (substring 0 (String.length s - String.length suffix) s).
    pose proof (substring_split s
                  (String.length s - String.length suffix)
                  (String.length suffix) ltac:(lia)) as H.
    now rewrite Hsub in H.
  - intros [before ->]. rewrite length_append. split; [lia|].
    replace (String.length before + String.length suffix
             - String.length suffix) with (String.length before) by lia.
    rewrite substring_skip. apply substring_all.
Qed.

(** [connect] opens a connection exactly when the path ends in lute.db,
    whatever comes before, and the file can be opened; it never opens
    more than one. *)
Theorem connection_opened_iff_suffix :
  forall fs self parents_only empty_translation include_WKI cutoff_date,
    let trace :=
      snd (connect fs self parents_only empty_translation include_WKI
                   cutoff_date []) in
    count is_opened trace <= 1
    /\ (count is_opened trace = 1
        <-> (exists before, db_path self = before ++ "lute.db")
            /\ fs (db_path self) <> Unopenable).
Proof.
  intros fs self p e w d trace. unfold trace. clear trace.
  rewrite connect_paths. cbv zeta.
  rewrite <- endswith_iff.
  destruct (endswith (db_path self) "lute.db"); cbn [negb].
  - destruct (fs (db_path self)) as [| |db].
    + count_events. split; [lia|].
      split; [discriminate | intros [_ H]; congruence].
    + count_events. split; [lia|].
      split; [intros _; split; [reflexivity|discriminate] | reflexivity].
    + assert (Hdb : @Db db <> Unopenable) by discriminate.
      destruct (execute db (query_text p e w d)) as [ts|ex];
        [|count_events; split; [lia|]; split; auto].
      destruct (lg_ids ts) as [ids|ex];
        [|count_events; split; [lia|]; split; auto].
      destruct (execute db "SELECT * FROM languages") as [al|ex];
        [|count_events; split; [lia|]; split; auto].
      destruct (pair_languages (list_set ids) al) as [langs|ex];
        count_events; (split; [lia|]); split; auto.
  - count_events. split; [lia|].
    split; [discriminate | intros [H _]; discriminate].
Qed.

Lemma connection_opened_iff_suffix_witness :
  count is_opened
        (snd (connect (fun _ => Db Scenario.three_terms)
                      (mkLuteDatabase "/home/user/absolute.db")
                      true false false Scenario.today [])) = 1.
Proof.
  apply (proj2 (proj2 (connection_opened_iff_suffix
                         (fun _ => Db Scenario.three_terms)
                         (mkLuteDatabase "/home/user/absolute.db")
                         true false false Scenario.today))).
  split.
  - exists "/home/user/abso". reflexivity.
  - discriminate.
Defined.

End FileNameGate.

(* ===================================================================== *)
(** * Stores without images and parent links *)
(* ===================================================================== *)

Section BareStores.

Import Py Sqlite Database Parsed Terms Traces Extraction.










End BareStores.
